(** * Sliding time window (package [average]): model and properties

    A shallow embedding of [slidingwindow.go].  Durations ([time.Duration])
    and [int]/[int64] values are integers of 64 bits, modelled in [Z] with
    the wrap-around of Go's arithmetic written out; [float64] values are
    Rocq's primitive binary64 floats; slices are lists with explicit bounds
    checks; a run-time panic is an explicit outcome.  The goroutine
    [shifter] is modelled by its atomic critical section [tick], taken
    under the instance's lock, and by the flag that records whether the
    stop signal has been delivered. *)

From Stdlib Require Import ZArith Lia Floats.
From stdpp Require Import base numbers list strings.

Local Open Scope Z_scope.

(* Decimal literals of the tests are read as the nearest binary64. *)
#[local] Set Warnings "-inexact-float".

(** ** Go's machine arithmetic *)

Module Go.

Definition minInt64 : Z := - 2 ^ 63.
Definition maxInt64 : Z := 2 ^ 63 - 1.

(** Values a variable of type [int64], [int] or [time.Duration] holds. *)
Definition in_int64 (z : Z) : Prop := minInt64 <= z <= maxInt64.

(** Two's complement wrap-around of [+], [-], [/] and [++] at 64 bits. *)
Definition wrap64 (z : Z) : Z := (z + 2 ^ 63) mod 2 ^ 64 - 2 ^ 63.

(** The largest allocation the runtime makes on a 64-bit platform, in
    bytes ([maxAlloc], with 48 bits of heap address). *)
Definition maxAlloc : Z := 2 ^ 48.

(** [time.Millisecond] and [time.Second], in nanoseconds. *)
Definition Millisecond : Z := 1000000.
Definition Second : Z := 1000 * Millisecond.

(** The conversion [float64(n)] of an [int64]: the nearest binary64. *)
Definition float64_of_int64 (n : Z) : float :=
  if n =? minInt64 then
    PrimFloat.opp (PrimFloat.mul (PrimFloat.of_uint63 (Uint63.of_Z (2 ^ 62))) 2%float)
  else if n <? 0 then PrimFloat.opp (PrimFloat.of_uint63 (Uint63.of_Z (- n)))
  else PrimFloat.of_uint63 (Uint63.of_Z n).

End Go.

(** ** Outcomes of a call: a normal return or a run-time panic *)

Inductive outcome (A : Type) : Type :=
| Done (a : A)
| Panic (msg : string).
Arguments Done {A} a.
Arguments Panic {A} msg.

Definition bind {A B : Type} (m : outcome A) (k : A -> outcome B) : outcome B :=
  match m with
  | Done a => k a
  | Panic msg => Panic msg
  end.

Notation "x <- m ;; k" := (bind m (fun x => k))
  (at level 100, m at next level, right associativity).

(** A Go function with an [error] result either returns a value or an
    error, here the error's message. *)
Inductive result (A : Type) : Type :=
| Ok (a : A)
| Err (msg : string).
Arguments Ok {A} a.
Arguments Err {A} msg.

Module Go_ops.

(** [a / b] on [int64]: truncated division; dividing by zero panics. *)
Definition div (a b : Z) : outcome Z :=
  if b =? 0 then Panic "runtime error: integer divide by zero"
  else Done (Go.wrap64 (Z.quot a b)).

(** [a % b] on [int64]: the remainder has the sign of the dividend. *)
Definition rem (a b : Z) : outcome Z :=
  if b =? 0 then Panic "runtime error: integer divide by zero"
  else Done (Z.rem a b).

(** [len(s)] *)
Definition len {A : Type} (s : list A) : Z := Z.of_nat (length s).

(** [make([]T, n)] for a type [T] of [elemsize] bytes, every element the
    zero value of [T].  As [makeslice] has it, a negative length and a
    length whose size in bytes exceeds [maxAlloc] panic.  Running out of
    memory at a length that passes this check ends the program with a
    fatal error of the runtime and is outside the model. *)
Definition make {A : Type} (elemsize : Z) (zero : A) (n : Z) : outcome (list A) :=
  if (n <? 0) || (elemsize * n >? Go.maxAlloc)
  then Panic "runtime error: makeslice: len out of range"
  else Done (replicate (Z.to_nat n) zero).

(** [s[i]] as a value; an index out of range panics. *)
Definition index {A : Type} (s : list A) (i : Z) : outcome A :=
  if (0 <=? i) && (i <? len s) then
    match s !! Z.to_nat i with
    | Some x => Done x
    | None => Panic "runtime error: index out of range"
    end
  else Panic "runtime error: index out of range".

(** [s[i] = x]; an index out of range panics. *)
Definition store {A : Type} (s : list A) (i : Z) (x : A) : outcome (list A) :=
  if (0 <=? i) && (i <? len s) then Done (<[Z.to_nat i := x]> s)
  else Panic "runtime error: index out of range".

End Go_ops.
Import Go_ops.

(** ** The data model *)

Record SlidingWindow : Type := mkSlidingWindow {
  window : Z;            (* time.Duration *)
  granularity : Z;       (* time.Duration *)
  samples : list float;  (* []float64 *)
  counts : list Z;       (* []int64 *)
  pos : Z;               (* int *)
  size : Z;              (* int *)
  stopOnce : bool        (* sync.Once: has the stop signal been sent? *)
}.

Definition set_buckets (sw : SlidingWindow) (s : list float) (c : list Z)
  : SlidingWindow :=
  mkSlidingWindow (window sw) (granularity sw) s c (pos sw) (size sw) (stopOnce sw).

Definition set_pos (sw : SlidingWindow) (p : Z) : SlidingWindow :=
  mkSlidingWindow (window sw) (granularity sw) (samples sw) (counts sw) p
    (size sw) (stopOnce sw).

Definition set_size (sw : SlidingWindow) (n : Z) : SlidingWindow :=
  mkSlidingWindow (window sw) (granularity sw) (samples sw) (counts sw) (pos sw)
    n (stopOnce sw).

Definition set_stopOnce (sw : SlidingWindow) (b : bool) : SlidingWindow :=
  mkSlidingWindow (window sw) (granularity sw) (samples sw) (counts sw) (pos sw)
    (size sw) b.

(** ** Construction *)

Definition InvalidWindow : string := "window cannot be 0".
Definition InvalidGranularity : string := "granularity cannot be 0".
Definition InvalidRatio : string :=
  "window size has to be a multiplier of the granularity size".

(** The three checks at the head of [New]: [Some] error, or [None] when
    all of them pass. *)
Definition validate (window granularity : Z) : outcome (option string) :=
  if window =? 0 then Done (Some InvalidWindow)
  else if granularity =? 0 then Done (Some InvalidGranularity)
  else
    if window <=? granularity then Done (Some InvalidRatio)
    else
      r <- rem window granularity ;;
      if negb (r =? 0) then Done (Some InvalidRatio) else Done None.

Definition New (window granularity : Z) : outcome (result SlidingWindow) :=
  e <- validate window granularity ;;
  match e with
  | Some msg => Done (Err msg)
  | None =>
      n <- div window granularity ;;
      s <- make 8 0%float n ;;
      c <- make 8 0 n ;;
      Done (Ok (mkSlidingWindow window granularity s c 0 n false))
  end.

Definition MustNew (window granularity : Z) : outcome SlidingWindow :=
  r <- New window granularity ;;
  match r with
  | Ok sw => Done sw
  | Err msg => Panic msg
  end.

(** ** The operations *)

(** The critical section of [shifter], run once for each tick of the
    ticker. *)
Definition tick (sw : SlidingWindow) : outcome SlidingWindow :=
  let p := Go.wrap64 (pos sw + 1) in
  let p := if p >=? len (samples sw) then 0 else p in
  s <- store (samples sw) p 0%float ;;
  c <- store (counts sw) p 0 ;;
  Done (set_buckets (set_pos sw p) s c).

Definition Add (sw : SlidingWindow) (v : float) : outcome SlidingWindow :=
  x <- index (samples sw) (pos sw) ;;
  s <- store (samples sw) (pos sw) (x + v)%float ;;
  n <- index (counts sw) (pos sw) ;;
  c <- store (counts sw) (pos sw) (Go.wrap64 (n + 1)) ;;
  Done (set_buckets sw s c).

(** The loop [for i := range sw.samples] of [Reset], over the indices
    still to visit. *)
Fixpoint reset_loop (idx : list nat) (s : list float) (c : list Z)
  : outcome (list float * list Z) :=
  match idx with
  | [] => Done (s, c)
  | i :: idx' =>
      s' <- store s (Z.of_nat i) 0%float ;;
      c' <- store c (Z.of_nat i) 0 ;;
      reset_loop idx' s' c'
  end.

Definition Reset (sw : SlidingWindow) : outcome SlidingWindow :=
  let sw0 := set_size (set_pos sw 0) 0 in
  r <- reset_loop (seq 0 (length (samples sw))) (samples sw) (counts sw) ;;
  Done (set_buckets sw0 r.1 r.2).

(** [stopOnce.Do]: the first call delivers the stop signal to [shifter],
    later calls do nothing. *)
Definition Stop (sw : SlidingWindow) : outcome SlidingWindow :=
  if stopOnce sw then Done sw else Done (set_stopOnce sw true).

(** The loop of [Total]: [n] iterations remain, the loop variable is [i]. *)
Fixpoint total_loop (sw : SlidingWindow) (n : nat) (i : Z)
    (total : float) (totalCount : Z) : outcome (float * Z) :=
  match n with
  | O => Done (total, totalCount)
  | S n' =>
      let p := Go.wrap64 (pos sw - i) in
      let p := if p <? 0 then Go.wrap64 (p + len (samples sw)) else p in
      x <- index (samples sw) p ;;
      k <- index (counts sw) p ;;
      total_loop sw n' (i + 1) (total + x)%float (Go.wrap64 (totalCount + k))
  end.

Definition Total (sw : SlidingWindow) (window0 : Z) : outcome (float * Z) :=
  let w := if window0 >? window sw then window sw else window0 in
  sampleCount <- div w (granularity sw) ;;
  let sampleCount := if sampleCount >? size sw then size sw else sampleCount in
  total_loop sw (Z.to_nat sampleCount) 0 0%float 0.

Definition Average (sw : SlidingWindow) (window0 : Z) : outcome float :=
  r <- Total sw window0 ;;
  let '(total, sampleCount) := r in
  if sampleCount =? 0 then Done 0%float
  else Done (total / Go.float64_of_int64 sampleCount)%float.

(** ** The fixtures of the test file *)

Definition fixture_total : SlidingWindow :=
  mkSlidingWindow (10 * Go.Second) Go.Second
    [1; 2; 5; 0; 0; 0; 0; 0; 4; 0]%float
    [1; 2; 2; 0; 0; 0; 0; 0; 4; 0] 1 10 false.

Definition fixture_average : SlidingWindow :=
  mkSlidingWindow (10 * Go.Second) Go.Second
    [20; 4; 5; 0; 0; 0; 0; 0; 4; 10]%float
    [10; 2; 5; 0; 0; 0; 0; 0; 4; 2] 1 10 false.

(** ** Runs of an instance

    The calls and events an instance goes through, each atomic under the
    instance's lock.  [OpTick] is the ticker firing: [shifter] runs its
    critical section unless it has received the stop signal and returned.
    The queries return their value to the caller and leave the instance
    as it is. *)

Inductive op : Type :=
| OpAdd (v : float)
| OpTick
| OpReset
| OpStop
| OpTotal (d : Z)
| OpAverage (d : Z).

Definition exec (o : op) (sw : SlidingWindow) : outcome SlidingWindow :=
  match o with
  | OpAdd v => Add sw v
  | OpTick => if stopOnce sw then Done sw else tick sw
  | OpReset => Reset sw
  | OpStop => Stop sw
  | OpTotal d => _ <- Total sw d ;; Done sw
  | OpAverage d => _ <- Average sw d ;; Done sw
  end.

Fixpoint run (ops : list op) (sw : SlidingWindow) : outcome SlidingWindow :=
  match ops with
  | [] => Done sw
  | o :: ops' => sw' <- exec o sw ;; run ops' sw'
  end.

(** The states of an instance: those a run reaches from what [New]
    returned. *)
Definition reachable (sw : SlidingWindow) : Prop :=
  exists (w g : Z) (sw0 : SlidingWindow) (ops : list op),
    Go.in_int64 w /\ Go.in_int64 g /\
    New w g = Done (Ok sw0) /\ run ops sw0 = Done sw.

(** What holds of every state of an instance. *)
Record wf (sw : SlidingWindow) : Prop := mk_wf {
  wf_granularity : 0 < granularity sw;
  wf_counts : length (counts sw) = length (samples sw);
  wf_pos : 0 <= pos sw < len (samples sw);
  wf_len : len (samples sw) <= Go.maxInt64;
  wf_size : 0 <= size sw <= len (samples sw);
  wf_window : 0 < window sw
}.

(** The cursor after a tick. *)
Definition next_pos (sw : SlidingWindow) : Z :=
  (pos sw + 1) mod len (samples sw).

(** The lookback [Total] divides by the granularity: the argument, or the
    window of the instance when the argument is larger. *)
Definition clamp (sw : SlidingWindow) (d : Z) : Z :=
  if d >? window sw then window sw else d.

(** ** Scenarios *)

(** [TestTotalFromNew]: a fresh instance, two calls of [Add], one query. *)
Definition total_from_new : outcome (float * Z) :=
  sw <- MustNew (10 * Go.Second) Go.Second ;;
  sw <- Add sw 10%float ;;
  sw <- Add sw 20%float ;;
  Total sw Go.Second.

(** What [New(10 * time.Second, time.Second)] returns. *)
Definition fresh : SlidingWindow :=
  mkSlidingWindow (10 * Go.Second) Go.Second
    (replicate 10 0%float) (replicate 10 0) 0 10 false.

(** A fresh instance after two calls of [Add], a tick and another [Add]. *)
Definition after_adds : SlidingWindow :=
  mkSlidingWindow (10 * Go.Second) Go.Second
    [10; 1; 0; 0; 0; 0; 0; 0; 0; 0]%float
    [2; 1; 0; 0; 0; 0; 0; 0; 0; 0] 1 10 false.

(** A fresh instance that is reset, receives a value, and then sees [k]
    ticks of the ticker. *)
Definition ticks_after_reset (k : nat) : outcome SlidingWindow :=
  sw <- Reset fresh ;;
  sw <- Add sw 5%float ;;
  run (replicate k OpTick) sw.

(** ** What the operations keep and what [Total] sums *)

(** What holds of every state of an instance beyond [wf]: the number of
    buckets is the quotient fixed at construction, the retained count is
    that number or 0, and every count is an [int64]. *)
Record inv (sw : SlidingWindow) : Prop := mk_inv {
  inv_wf : wf sw;
  inv_window : Go.in_int64 (window sw);
  inv_exact : window sw = len (samples sw) * granularity sw;
  inv_size : size sw = len (samples sw) \/ size sw = 0;
  inv_counts : Forall Go.in_int64 (counts sw)
}.

(** The number of buckets a lookback [d] covers: whole granularities,
    at most the retained count. *)
Definition buckets_to_sum (sw : SlidingWindow) (d : Z) : nat :=
  Z.to_nat (Z.min (d / granularity sw) (size sw)).

(** The buckets a loop of [n] iterations visits from the offset [i]:
    backward from the cursor, modulo the number of buckets. *)
Fixpoint visited_from (sw : SlidingWindow) (i : Z) (n : nat) : list nat :=
  match n with
  | O => []
  | S n' =>
      Z.to_nat ((pos sw - i) mod len (samples sw)) :: visited_from sw (i + 1) n'
  end.

Definition visited (sw : SlidingWindow) (n : nat) : list nat :=
  visited_from sw 0 n.

(** Sums as [Total] accumulates them: from the left, in [float64] and
    in [int64]. *)
Definition add_float (acc : float) (xs : list float) : float :=
  fold_left PrimFloat.add xs acc.

Definition add_int64 (acc : Z) (ks : list Z) : Z :=
  fold_left (fun a k => Go.wrap64 (a + k)) ks acc.

Definition values_at (sw : SlidingWindow) (js : list nat) : list float :=
  (fun j => default 0%float (samples sw !! j)) <$> js.

Definition counts_at (sw : SlidingWindow) (js : list nat) : list Z :=
  (fun j => default 0 (counts sw !! j)) <$> js.

(** [k] ticks of the ticker with no call in between. *)
Definition ticks (k : nat) : list op := replicate k OpTick.

(** ** Machine arithmetic *)

Section Arithmetic.

Lemma wrap64_id (z : Z) : Go.in_int64 z -> Go.wrap64 z = z.
Proof.
  unfold Go.in_int64, Go.minInt64, Go.maxInt64, Go.wrap64.
  change (2 ^ 63) with 9223372036854775808.
  change (2 ^ 64) with 18446744073709551616.
  intros H. rewrite Z.mod_small; lia.
Qed.

Lemma in_int64_between (lo hi z : Z) :
  Go.in_int64 lo -> Go.in_int64 hi -> lo <= z <= hi -> Go.in_int64 z.
Proof. unfold Go.in_int64. lia. Qed.

Lemma in_int64_0 : Go.in_int64 0.
Proof. unfold Go.in_int64, Go.minInt64, Go.maxInt64. lia. Qed.

(** For a positive divisor Go's [/] rounds toward zero, so a dividend
    that is not positive gives a quotient that is not positive. *)
Lemma quot_nonpos (a b : Z) : a <= 0 -> 0 < b -> a <= Z.quot a b <= 0.
Proof.
  intros Ha Hb.
  rewrite <- (Z.opp_involutive a), Z.quot_opp_l by lia.
  assert (0 <= Z.quot (- a) b <= - a); [| lia].
  rewrite Z.quot_div_nonneg by lia. split.
  - apply Z.div_pos; lia.
  - apply Z.div_le_upper_bound; nia.
Qed.

Lemma quot_nonneg (a b : Z) : 0 <= a -> 0 < b -> 0 <= Z.quot a b <= a.
Proof.
  intros Ha Hb. rewrite Z.quot_div_nonneg by lia. split.
  - apply Z.div_pos; lia.
  - apply Z.div_le_upper_bound; nia.
Qed.

Lemma div_positive (a b : Z) :
  Go.in_int64 a -> 0 < b -> 0 <= a -> div a b = Done (a / b).
Proof.
  intros Ha Hb H0. unfold div.
  destruct (Z.eqb_spec b 0); [lia |].
  pose proof (quot_nonneg a b H0 Hb) as Hq.
  rewrite wrap64_id.
  - by rewrite Z.quot_div_nonneg by lia.
  - apply (in_int64_between 0 a); [apply in_int64_0 | done | lia].
Qed.

Lemma div_nonpos (a b : Z) :
  Go.in_int64 a -> 0 < b -> a <= 0 ->
  exists q, div a b = Done q /\ q <= 0.
Proof.
  intros Ha Hb H0. unfold div.
  destruct (Z.eqb_spec b 0); [lia |].
  pose proof (quot_nonpos a b H0 Hb) as Hq.
  eexists; split; [reflexivity |].
  rewrite wrap64_id; [lia |].
  apply (in_int64_between a 0); [done | apply in_int64_0 | lia].
Qed.

(** Go's [%] and the mathematical [mod] agree on which remainders are 0. *)
Lemma rem_zero_iff_mod_zero (a b : Z) :
  b <> 0 -> Z.rem a b = 0 <-> a mod b = 0.
Proof.
  intros Hb. rewrite Z.rem_divide, Z.mod_divide by done. reflexivity.
Qed.

Lemma rem_positive (a b : Z) : 0 <= a -> 0 < b -> rem a b = Done (a mod b).
Proof.
  intros Ha Hb. unfold rem.
  destruct (Z.eqb_spec b 0); [lia |].
  by rewrite Z.rem_mod_nonneg by lia.
Qed.

End Arithmetic.

(** ** Slices *)

Section Slices.
Context {A : Type}.
Implicit Types (s : list A) (i : Z) (x : A).

Lemma store_Done s i x :
  0 <= i < len s -> store s i x = Done (<[Z.to_nat i := x]> s).
Proof.
  intros Hi. unfold store.
  destruct (Z.leb_spec 0 i), (Z.ltb_spec i (len s)); simpl; (done || lia).
Qed.

Lemma store_inv s i x s' :
  store s i x = Done s' -> 0 <= i < len s /\ s' = <[Z.to_nat i := x]> s.
Proof.
  unfold store.
  destruct (Z.leb_spec 0 i), (Z.ltb_spec i (len s)); simpl; intros Hs;
    inversion Hs; subst; auto.
Qed.

Lemma index_Done s i :
  0 <= i < len s -> exists x, index s i = Done x /\ s !! Z.to_nat i = Some x.
Proof.
  intros Hi. unfold index.
  destruct (Z.leb_spec 0 i), (Z.ltb_spec i (len s)); simpl; try lia.
  destruct (lookup_lt_is_Some_2 s (Z.to_nat i)) as [x Hx].
  { unfold len in *. lia. }
  exists x. by rewrite Hx.
Qed.

Lemma len_insert s (n : nat) x : len (<[n := x]> s) = len s.
Proof. unfold len. by rewrite length_insert. Qed.

Lemma len_replicate (n : nat) x : len (replicate n x) = Z.of_nat n.
Proof. unfold len. by rewrite length_replicate. Qed.


Lemma make_Panic (elemsize : Z) (zero : A) (n : Z) :
  n < 0 \/ Go.maxAlloc < elemsize * n ->
  make elemsize zero n = Panic "runtime error: makeslice: len out of range".
Proof.
  intros Hn. unfold make.
  destruct (Z.ltb_spec n 0); [done |].
  destruct (Z.gtb_spec (elemsize * n) Go.maxAlloc); [done | lia].
Qed.

Lemma make_inv (elemsize : Z) (zero : A) (n : Z) (l : list A) :
  make elemsize zero n = Done l ->
  0 <= n /\ elemsize * n <= Go.maxAlloc /\ l = replicate (Z.to_nat n) zero.
Proof.
  unfold make.
  destruct (Z.ltb_spec n 0); [discriminate |].
  destruct (Z.gtb_spec (elemsize * n) Go.maxAlloc); [discriminate |].
  simpl. intros Hl. inversion Hl. auto.
Qed.

End Slices.

(** ** Construction *)

Section Construction.

(** The checks in the order they are made. *)
Lemma validate_cases (w g : Z) :
  validate w g =
    Done (if w =? 0 then Some InvalidWindow
          else if g =? 0 then Some InvalidGranularity
          else if (w <=? g) || negb (Z.rem w g =? 0) then Some InvalidRatio
          else None).
Proof.
  unfold validate, rem.
  destruct (w =? 0); [done |].
  destruct (Z.eqb_spec g 0); [done |].
  destruct (w <=? g); [done |]. simpl.
  by destruct (Z.rem w g =? 0).
Qed.

Lemma validate_None (w g : Z) :
  validate w g = Done None <-> w <> 0 /\ g <> 0 /\ g < w /\ Z.rem w g = 0.
Proof.
  rewrite validate_cases.
  destruct (Z.eqb_spec w 0), (Z.eqb_spec g 0), (Z.leb_spec w g),
    (Z.eqb_spec (Z.rem w g) 0); simpl; split; intros Hv;
    solve [ inversion Hv | lia | done | tauto ].
Qed.

(** An exact quotient is no larger than the dividend. *)
Lemma quot_exact (w g : Z) :
  g <> 0 -> Z.rem w g = 0 -> w = g * Z.quot w g /\ Z.abs (Z.quot w g) <= Z.abs w.
Proof.
  intros Hg Hr. pose proof (Z.quot_rem' w g) as Hq. rewrite Hr in Hq.
  split; [lia |].
  assert (Z.abs w = Z.abs g * Z.abs (Z.quot w g)) as Ha.
  { rewrite <- Z.abs_mul. f_equal. lia. }
  assert (1 <= Z.abs g) by lia.
  pose proof (Z.abs_nonneg (Z.quot w g)). nia.
Qed.

(** Past the checks, the bucket count [window / granularity] is negative
    exactly when the granularity is. *)
Lemma checked_quot (w g : Z) :
  Go.in_int64 w -> Go.in_int64 g ->
  w <> 0 -> g <> 0 -> g < w -> Z.rem w g = 0 ->
  div w g = Done (Z.quot w g) /\
  (0 < g -> 0 < w /\ 2 <= Z.quot w g /\ Z.quot w g = w / g) /\
  (g < 0 -> 0 < w /\ Z.quot w g < 0).
Proof.
  intros Hw Hg Hw0 Hg0 Hlt Hr.
  destruct (quot_exact w g Hg0 Hr) as [Hq Habs].
  split; [| split].
  - unfold div. destruct (Z.eqb_spec g 0); [lia |].
    rewrite wrap64_id; [done |].
    unfold Go.in_int64, Go.minInt64, Go.maxInt64 in *. lia.
  - intros Hpos. assert (0 < w) by lia.
    split; [done |]. split; [nia |].
    apply Z.quot_div_nonneg; lia.
  - intros Hneg. clear Habs Hr.
    set (q := Z.quot w g) in *. clearbody q.
    assert (q < 0 \/ q = 0 \/ 1 <= q) as [Hq1 | [Hq1 | Hq1]] by lia;
      [nia | subst q; lia | nia].
Qed.

Lemma New_inv (w g : Z) (sw : SlidingWindow) :
  Go.in_int64 w -> Go.in_int64 g -> New w g = Done (Ok sw) ->
  0 < g /\ g < w /\ Z.rem w g = 0 /\ 2 <= w / g /\
  sw = mkSlidingWindow w g (replicate (Z.to_nat (w / g)) 0%float)
         (replicate (Z.to_nat (w / g)) 0) 0 (w / g) false.
Proof.
  intros Hw Hg. unfold New.
  destruct (validate w g) as [[msg |] |] eqn:Hv; simpl; try discriminate.
  apply validate_None in Hv as (Hw0 & Hg0 & Hlt & Hr).
  destruct (checked_quot w g Hw Hg Hw0 Hg0 Hlt Hr) as (Hd & Hpos & Hneg).
  rewrite Hd. simpl.
  destruct (make 8 0%float (Z.quot w g)) as [s |] eqn:Hs; simpl;
    [| discriminate].
  destruct (make 8 0 (Z.quot w g)) as [c |] eqn:Hc; simpl; [| discriminate].
  apply make_inv in Hs as (Hq & _ & ->). apply make_inv in Hc as (_ & _ & ->).
  intros Hsw. assert (0 < g) as Hg1.
  { destruct (Z.lt_trichotomy g 0) as [Hn | [Hz | Hp]]; [| lia | done].
    apply Hneg in Hn. lia. }
  destruct (Hpos Hg1) as (_ & H2 & Heq). rewrite Heq in *.
  repeat split; try done. by inversion Hsw.
Qed.


Lemma New_wf (w g : Z) (sw : SlidingWindow) :
  Go.in_int64 w -> Go.in_int64 g -> New w g = Done (Ok sw) -> wf sw.
Proof.
  intros Hw Hg Hn.
  destruct (New_inv w g sw Hw Hg Hn) as (Hg0 & Hlt & Hr & H2 & ->).
  assert (w / g <= w) as Hle by (apply Z.div_le_upper_bound; nia).
  constructor; simpl; rewrite ?len_replicate, ?length_replicate; try lia.
  unfold Go.in_int64 in Hw. lia.
Qed.

End Construction.

(** ** The operations on a well-formed instance *)

Section Operations.
Implicit Types (sw : SlidingWindow) (v : float).

Lemma tick_Done sw :
  wf sw ->
  tick sw =
    Done (set_buckets (set_pos sw (next_pos sw))
            (<[Z.to_nat (next_pos sw) := 0%float]> (samples sw))
            (<[Z.to_nat (next_pos sw) := 0]> (counts sw))).
Proof.
  intros [Hg Hc Hp Hl Hs Hw]. unfold tick, next_pos.
  assert (len (counts sw) = len (samples sw)) as Hlc by (unfold len; lia).
  rewrite wrap64_id by (unfold Go.in_int64, Go.minInt64, Go.maxInt64 in *; lia).
  assert ((if pos sw + 1 >=? len (samples sw) then 0 else pos sw + 1)
          = (pos sw + 1) mod len (samples sw)) as ->.
  { destruct (Z.geb_spec (pos sw + 1) (len (samples sw))).
    - replace (pos sw + 1) with (len (samples sw)) by lia.
      by rewrite Z.mod_same by lia.
    - by rewrite Z.mod_small by lia. }
  assert (0 <= (pos sw + 1) mod len (samples sw) < len (samples sw)) as Hn
    by (apply Z.mod_pos_bound; lia).
  rewrite store_Done by done. simpl.
  rewrite store_Done by lia. done.
Qed.

Lemma Add_Done sw v :
  wf sw ->
  exists (x : float) (n : Z),
    samples sw !! Z.to_nat (pos sw) = Some x /\
    counts sw !! Z.to_nat (pos sw) = Some n /\
    Add sw v =
      Done (set_buckets sw
              (<[Z.to_nat (pos sw) := (x + v)%float]> (samples sw))
              (<[Z.to_nat (pos sw) := Go.wrap64 (n + 1)]> (counts sw))).
Proof.
  intros [Hg Hc Hp Hl Hs Hw].
  assert (len (counts sw) = len (samples sw)) as Hlc by (unfold len; lia).
  destruct (index_Done (samples sw) (pos sw) Hp) as (x & Hx & Hlx).
  destruct (index_Done (counts sw) (pos sw)) as (n & Hn & Hln); [lia |].
  exists x, n. repeat split; try done.
  unfold Add. rewrite Hx. simpl. rewrite store_Done by done. simpl.
  rewrite Hn. simpl. rewrite store_Done by lia. done.
Qed.

Lemma take_S_insert {A : Type} (s : list A) (k : nat) (x : A) :
  (k < length s)%nat -> take (S k) (<[k := x]> s) = take k s ++ [x].
Proof.
  intros Hk. rewrite (take_S_r _ _ x).
  - by rewrite take_insert_ge by lia.
  - by apply list_lookup_insert_eq.
Qed.

(** The loop of [Reset] visits every index once and leaves zeros. *)
Lemma reset_loop_Done (m : nat) :
  forall (k : nat) (s : list float) (c : list Z),
    length c = length s -> (k + m)%nat = length s ->
    reset_loop (seq k m) s c =
      Done (take k s ++ replicate m 0%float, take k c ++ replicate m 0).
Proof.
  induction m as [| m IH]; intros k s c Hc Hk; simpl.
  - rewrite !app_nil_r, !firstn_all2 by lia. done.
  - rewrite store_Done by (unfold len; lia). simpl.
    rewrite store_Done by (unfold len; lia). simpl.
    rewrite Nat2Z.id, IH by (rewrite ?length_insert; lia).
    rewrite !take_S_insert by lia.
    by rewrite <- !app_assoc.
Qed.

Lemma Reset_Done sw :
  length (counts sw) = length (samples sw) ->
  Reset sw =
    Done (mkSlidingWindow (window sw) (granularity sw)
            (replicate (length (samples sw)) 0%float)
            (replicate (length (samples sw)) 0) 0 0 (stopOnce sw)).
Proof.
  intros Hc. unfold Reset.
  rewrite (reset_loop_Done (length (samples sw)) 0) by done.
  done.
Qed.

(** [Reset] can only return with the cursor and the retained count at 0. *)
Lemma Reset_inv sw sw' :
  Reset sw = Done sw' ->
  pos sw' = 0 /\ size sw' = 0 /\ window sw' = window sw /\
  granularity sw' = granularity sw /\ stopOnce sw' = stopOnce sw.
Proof.
  unfold Reset.
  destruct (reset_loop _ _ _) as [[s c] |]; simpl; [| discriminate].
  intros Hr. inversion Hr; subst. done.
Qed.

End Operations.

(** ** Queries *)

Section Queries.
Implicit Types (sw : SlidingWindow) (d : Z).

(** With no bucket to visit [Total] returns the initial values of its
    accumulators. *)
Lemma Total_no_bucket sw d (q : Z) :
  div (clamp sw d) (granularity sw) = Done q ->
  q <= 0 \/ size sw <= 0 ->
  Total sw d = Done (0%float, 0).
Proof.
  intros Hq Hz. unfold Total. fold (clamp sw d). rewrite Hq. simpl.
  assert (Z.to_nat (if q >? size sw then size sw else q) = 0%nat) as ->.
  { destruct (Z.gtb_spec q (size sw)); lia. }
  done.
Qed.

(** On a well-formed instance the loop of [Total] stays inside the
    buckets. *)
Lemma total_loop_Done sw (n : nat) :
  wf sw ->
  forall (i : Z) (total : float) (totalCount : Z),
    0 <= i -> i + Z.of_nat n <= len (samples sw) ->
    exists r, total_loop sw n i total totalCount = Done r.
Proof.
  intros [Hg Hc Hp Hl Hs Hw].
  assert (len (counts sw) = len (samples sw)) as Hlc by (unfold len; lia).
  induction n as [| n IH]; intros i total totalCount Hi Hn; simpl.
  - eauto.
  - rewrite wrap64_id
      by (unfold Go.in_int64, Go.minInt64, Go.maxInt64 in *; lia).
    set (p := if pos sw - i <? 0
              then Go.wrap64 (pos sw - i + len (samples sw)) else pos sw - i).
    assert (0 <= p < len (samples sw)) as Hp'.
    { subst p. destruct (Z.ltb_spec (pos sw - i) 0).
      - rewrite wrap64_id
          by (unfold Go.in_int64, Go.minInt64, Go.maxInt64 in *; lia).
        lia.
      - lia. }
    destruct (index_Done (samples sw) p Hp') as (x & -> & _).
    destruct (index_Done (counts sw) p) as (k & -> & _); [lia |].
    simpl. apply IH; lia.
Qed.

Lemma Total_Done sw d : wf sw -> exists r, Total sw d = Done r.
Proof.
  intros Hwf. unfold Total. unfold div.
  destruct (Z.eqb_spec (granularity sw) 0) as [Hz | Hz].
  { destruct Hwf. lia. }
  simpl. apply total_loop_Done; [done | lia |].
  destruct Hwf as [_ _ _ _ Hs _].
  match goal with |- context [if ?q >? size sw then _ else _] =>
    destruct (Z.gtb_spec q (size sw)) end; lia.
Qed.

Lemma Average_Done sw d : wf sw -> exists a, Average sw d = Done a.
Proof.
  intros Hwf. unfold Average.
  destruct (Total_Done sw d Hwf) as ([total n] & ->). simpl.
  destruct (n =? 0); eauto.
Qed.

(** [Average] of an empty total. *)
Lemma Average_no_bucket sw d :
  Total sw d = Done (0%float, 0) -> Average sw d = Done 0%float.
Proof. intros Ht. unfold Average. by rewrite Ht. Qed.

End Queries.

(** ** Runs keep the instance well formed *)

Section Runs.
Implicit Types (sw : SlidingWindow) (o : op) (ops : list op).

Lemma exec_inv_query sw sw' o :
  match o with OpTotal _ | OpAverage _ => True | _ => False end ->
  exec o sw = Done sw' -> sw' = sw.
Proof.
  destruct o; try done; intros _; simpl.
  - destruct (Total sw d); simpl; congruence.
  - destruct (Average sw d); simpl; congruence.
Qed.

(** Every call returns on a well-formed instance, and leaves it so. *)
Lemma exec_wf sw o : wf sw -> exists sw', exec o sw = Done sw' /\ wf sw'.
Proof.
  intros Hwf. destruct o as [v | | | | d | d]; simpl.
  - destruct (Add_Done sw v Hwf) as (x & n & _ & _ & ->).
    eexists; split; [done |]. destruct Hwf.
    constructor; simpl; rewrite ?len_insert, ?length_insert; done.
  - destruct (stopOnce sw); [eauto |].
    rewrite tick_Done by done. eexists; split; [done |].
    destruct Hwf as [Hg Hc Hp Hl Hs Hw].
    constructor; simpl; rewrite ?len_insert, ?length_insert; try done.
    unfold next_pos. apply Z.mod_pos_bound. lia.
  - destruct Hwf as [Hg Hc Hp Hl Hs Hw]. rewrite Reset_Done by done.
    eexists; split; [done |].
    constructor; simpl; rewrite ?len_replicate, ?length_replicate;
      unfold len in *; lia.
  - unfold Stop. destruct (stopOnce sw); [eauto |].
    eexists; split; [done |]. by destruct Hwf.
  - destruct (Total_Done sw d Hwf) as (r & ->). simpl. eauto.
  - destruct (Average_Done sw d Hwf) as (r & ->). simpl. eauto.
Qed.

Lemma exec_preserves_wf sw sw' o : wf sw -> exec o sw = Done sw' -> wf sw'.
Proof.
  intros Hwf He. destruct (exec_wf sw o Hwf) as (sw'' & He' & Hwf').
  congruence.
Qed.

Lemma run_wf ops : forall sw, wf sw -> exists sw', run ops sw = Done sw' /\ wf sw'.
Proof.
  induction ops as [| o ops IH]; intros sw Hwf; simpl.
  - eauto.
  - destruct (exec_wf sw o Hwf) as (sw1 & -> & Hwf1). simpl. by apply IH.
Qed.

Lemma run_app ops1 ops2 sw :
  run (ops1 ++ ops2) sw = (sw' <- run ops1 sw ;; run ops2 sw').
Proof.
  revert sw. induction ops1 as [| o ops1 IH]; intros sw; simpl; [done |].
  destruct (exec o sw); simpl; [apply IH | done].
Qed.

Lemma reachable_wf sw : reachable sw -> wf sw.
Proof.
  intros (w & g & sw0 & ops & Hw & Hg & Hn & Hr).
  destruct (run_wf ops sw0 (New_wf w g sw0 Hw Hg Hn)) as (sw' & Hr' & Hwf).
  congruence.
Qed.

Lemma reachable_step sw sw' o :
  reachable sw -> exec o sw = Done sw' -> reachable sw'.
Proof.
  intros (w & g & sw0 & ops & Hw & Hg & Hn & Hr) He.
  exists w, g, sw0, (ops ++ [o]).
  split; [done |]. split; [done |]. split; [done |].
  rewrite run_app, Hr. simpl. by rewrite He.
Qed.

(** The retained count after one call. *)
Lemma exec_size sw sw' o :
  exec o sw = Done sw' ->
  size sw' = match o with OpReset => 0 | _ => size sw end.
Proof.
  destruct o as [v | | | | d | d]; simpl.
  - unfold Add.
    destruct (index (samples sw) (pos sw)); simpl; [| discriminate].
    destruct (store (samples sw) (pos sw) _); simpl; [| discriminate].
    destruct (index (counts sw) (pos sw)); simpl; [| discriminate].
    destruct (store (counts sw) (pos sw) _); simpl; [| discriminate].
    intros He. by inversion He.
  - destruct (stopOnce sw); [intros He; by inversion He |].
    unfold tick.
    destruct (store (samples sw) _ _); simpl; [| discriminate].
    destruct (store (counts sw) _ _); simpl; [| discriminate].
    intros He. by inversion He.
  - intros He. by apply Reset_inv in He as (_ & ? & _).
  - unfold Stop. destruct (stopOnce sw); intros He; by inversion He.
  - intros He. by rewrite (exec_inv_query sw sw' (OpTotal d) I He).
  - intros He. by rewrite (exec_inv_query sw sw' (OpAverage d) I He).
Qed.

(** Once the retained count is 0 it stays 0. *)
Lemma run_size_0 ops :
  forall sw sw', size sw = 0 -> run ops sw = Done sw' -> size sw' = 0.
Proof.
  induction ops as [| o ops IH]; intros sw sw' H0; simpl.
  - intros Hr. by inversion Hr; subst.
  - destruct (exec o sw) as [sw1 |] eqn:He; simpl; [| discriminate].
    apply IH. apply exec_size in He. by destruct o; rewrite He.
Qed.

End Runs.

(** ** The constructor *)

Lemma New_fresh : New (10 * Go.Second) Go.Second = Done (Ok fresh).
Proof. reflexivity. Qed.

Lemma reachable_fresh : reachable fresh.
Proof.
  exists (10 * Go.Second), Go.Second, fresh, [].
  split; [| split; [| split]]; try reflexivity;
    unfold Go.in_int64, Go.minInt64, Go.maxInt64, Go.Second, Go.Millisecond; lia.
Qed.

(** C5. [New] makes its checks in order: a zero window is refused with
    "window cannot be 0"; otherwise a zero granularity is refused with
    "granularity cannot be 0"; otherwise a window that is not larger than
    the granularity, or that leaves a remainder when divided by it, is
    refused with "window size has to be a multiplier of the granularity
    size".  A window equal to the granularity is among the latter, although
    it divides evenly. *)
Theorem New_errors (w g : Z) :
  (w = 0 -> New w g = Done (Err "window cannot be 0")) /\
  (w <> 0 -> g = 0 -> New w g = Done (Err "granularity cannot be 0")) /\
  (w <> 0 -> g <> 0 -> w <= g \/ Z.rem w g <> 0 ->
   New w g =
     Done (Err "window size has to be a multiplier of the granularity size")) /\
  (w <> 0 -> w = g -> Z.rem w g = 0 /\ New w g = Done (Err InvalidRatio)).
Proof.
  unfold New. rewrite validate_cases.
  destruct (Z.eqb_spec w 0) as [Hw | Hw], (Z.eqb_spec g 0) as [Hg | Hg],
    (Z.leb_spec w g) as [Hle | Hle], (Z.eqb_spec (Z.rem w g) 0) as [Hr | Hr];
    simpl; repeat split; intros; subst;
    try rewrite Z.rem_same in * by done; solve [done | lia | tauto].
Qed.

Lemma New_errors_witness :
  New 0 0 = Done (Err InvalidWindow) /\
  New Go.Second 0 = Done (Err InvalidGranularity) /\
  New (3 * Go.Second) (2 * Go.Second) = Done (Err InvalidRatio) /\
  New Go.Second Go.Second = Done (Err InvalidRatio).
Proof.
  split; [| split; [| split]].
  - destruct (New_errors 0 0) as (H1 & _). apply H1. reflexivity.
  - destruct (New_errors Go.Second 0) as (_ & H2 & _).
    apply H2; [vm_compute; discriminate | reflexivity].
  - destruct (New_errors (3 * Go.Second) (2 * Go.Second)) as (_ & _ & H3 & _).
    apply H3; [vm_compute; discriminate | vm_compute; discriminate |].
    right. vm_compute. discriminate.
  - destruct (New_errors Go.Second Go.Second) as (_ & _ & _ & H4).
    apply H4; [vm_compute; discriminate | reflexivity].
Defined.




(** C9. The checks of [New] do not cover negative durations: for a
    positive window and a negative granularity that divides it, for
    instance 2s and -1s, all three checks pass, the number of buckets
    [window / granularity] is negative, and [New] ends in the panic of
    [make] instead of returning an error. *)
Theorem New_negative_granularity (w g : Z) :
  Go.in_int64 w -> Go.in_int64 g -> 0 < w -> g < 0 -> Z.rem w g = 0 ->
  validate w g = Done None /\
  (exists n, div w g = Done n /\ n < 0) /\
  New w g = Panic "runtime error: makeslice: len out of range".
Proof.
  intros Hw Hg Hw0 Hg0 Hr.
  assert (validate w g = Done None) as Hv by (apply validate_None; lia).
  destruct (checked_quot w g Hw Hg) as (Hd & _ & Hneg); try lia.
  destruct (Hneg Hg0) as [_ Hq].
  split; [done |]. split; [eauto |].
  unfold New. rewrite Hv. simpl. rewrite Hd. simpl.
  by rewrite make_Panic by (left; lia).
Qed.

Lemma New_negative_granularity_witness :
  validate (2 * Go.Second) (- Go.Second) = Done None /\
  (exists n, div (2 * Go.Second) (- Go.Second) = Done n /\ n < 0) /\
  New (2 * Go.Second) (- Go.Second) =
    Panic "runtime error: makeslice: len out of range".
Proof.
  apply (New_negative_granularity (2 * Go.Second) (- Go.Second)).
  - vm_compute. split; discriminate.
  - vm_compute. split; discriminate.
  - reflexivity.
  - reflexivity.
  - reflexivity.
Defined.

(** ** The fixtures *)

(** C1, the code on the run of [TestTotalFromNew].  On a fresh instance
    with a window of 10s and a granularity of 1s, [Add(10)] and [Add(20)]
    with no tick in between go to one bucket and raise its count twice, so
    [Total(1s)] returns a total of 30 with a sample count of 2, and not the
    sample count of 1 that the test asserts. *)
Theorem total_from_new_counts_both :
  total_from_new = Done (30%float, 2) /\
  total_from_new <> Done (30%float, 1).
Proof.
  split; [vm_compute; reflexivity |].
  vm_compute. intros H. inversion H.
Qed.

Lemma C2_counterexample :
  Total fixture_total (2 * Go.Second) <> Done (3%float, 4).
Proof. vm_compute. intros H. inversion H. Qed.

(** C2 (amended). On the fixture with values [1,2,5,0,0,0,0,0,4,0], counts
    [1,2,2,0,0,0,0,0,4,0], cursor 1 and 10 retained buckets of 1s,
    [Total] returns (2,2) for 1s, (3,3) for 2s, (7,7) for 4s and (12,9)
    for 10s and for 20s. *)
Theorem fixture_total_values :
  Total fixture_total Go.Second = Done (2%float, 2) /\
  Total fixture_total (2 * Go.Second) = Done (3%float, 3) /\
  Total fixture_total (4 * Go.Second) = Done (7%float, 7) /\
  Total fixture_total (10 * Go.Second) = Done (12%float, 9) /\
  Total fixture_total (20 * Go.Second) = Done (12%float, 9).
Proof. repeat split; vm_compute; reflexivity. Qed.

(** C4. On the fixture with values [20,4,5,0,0,0,0,0,4,10], counts
    [10,2,5,0,0,0,0,0,4,2], cursor 1 and 10 retained buckets of 1s,
    [Average] returns 0 for a lookback of 0, 2.0 for 1s and for 2s,
    2.1111111111111111 for 4s, and 1.8695652173913044 for 10s and for 20s,
    the latter being clamped to the window. *)
Theorem fixture_average_values :
  Average fixture_average 0 = Done 0%float /\
  Average fixture_average Go.Second = Done 2.0%float /\
  Average fixture_average (2 * Go.Second) = Done 2.0%float /\
  Average fixture_average (4 * Go.Second) = Done 2.1111111111111111%float /\
  Average fixture_average (10 * Go.Second) = Done 1.8695652173913044%float /\
  Average fixture_average (20 * Go.Second) = Done 1.8695652173913044%float /\
  clamp fixture_average (20 * Go.Second) = 10 * Go.Second.
Proof. repeat split; vm_compute; reflexivity. Qed.

(** ** Rotation *)

(** Closed comparisons of integers, by evaluation. *)
Ltac by_evaluation :=
  vm_compute;
  first [ reflexivity | discriminate | split; (reflexivity || discriminate) ].

Lemma wf_fixture_total : wf fixture_total.
Proof. constructor; by_evaluation. Qed.

(** C7. A tick moves the cursor one position forward modulo the number of
    buckets and zeroes the value and the count of the bucket the cursor
    then points at; every other bucket, the retained count, the window and
    the granularity stay as they were. *)
Theorem tick_rotates (sw : SlidingWindow) :
  wf sw ->
  exists sw',
    tick sw = Done sw' /\
    pos sw' = (pos sw + 1) mod len (samples sw) /\
    samples sw' !! Z.to_nat (pos sw') = Some 0%float /\
    counts sw' !! Z.to_nat (pos sw') = Some 0 /\
    (forall i : nat, i <> Z.to_nat (pos sw') ->
       samples sw' !! i = samples sw !! i /\
       counts sw' !! i = counts sw !! i) /\
    length (samples sw') = length (samples sw) /\
    length (counts sw') = length (counts sw) /\
    size sw' = size sw /\
    window sw' = window sw /\ granularity sw' = granularity sw.
Proof.
  intros Hwf. rewrite tick_Done by done.
  destruct Hwf as [Hg Hc Hp Hl Hs Hw].
  assert (0 <= next_pos sw < len (samples sw)) as Hn
    by (apply Z.mod_pos_bound; lia).
  eexists. split; [reflexivity |]. simpl.
  split; [done |].
  split; [apply list_lookup_insert_eq; unfold len in *; lia |].
  split; [apply list_lookup_insert_eq; unfold len in *; lia |].
  split.
  { intros i Hi. by rewrite !list_lookup_insert_ne. }
  by rewrite !length_insert.
Qed.

Lemma tick_rotates_witness :
  wf fixture_total /\
  exists sw',
    tick fixture_total = Done sw' /\
    pos sw' = (pos fixture_total + 1) mod len (samples fixture_total) /\
    samples sw' !! Z.to_nat (pos sw') = Some 0%float /\
    counts sw' !! Z.to_nat (pos sw') = Some 0 /\
    (forall i : nat, i <> Z.to_nat (pos sw') ->
       samples sw' !! i = samples fixture_total !! i /\
       counts sw' !! i = counts fixture_total !! i) /\
    length (samples sw') = length (samples fixture_total) /\
    length (counts sw') = length (counts fixture_total) /\
    size sw' = size fixture_total /\
    window sw' = window fixture_total /\
    granularity sw' = granularity fixture_total.
Proof.
  assert (wf fixture_total) as Hwf.
  { constructor; by_evaluation. }
  split; [exact Hwf | apply (tick_rotates fixture_total Hwf)].
Defined.

(** The cursor wraps at the last bucket. *)
Example tick_wraps :
  (sw <- tick (set_pos fixture_total 9) ;; Done (pos sw, samples sw, counts sw))
  = Done (0, [0; 2; 5; 0; 0; 0; 0; 0; 4; 0]%float, [0; 2; 2; 0; 0; 0; 0; 0; 4; 0]).
Proof. reflexivity. Qed.

(** ** The retained count *)

(** C8. No call raises the retained count: [New] sets it to the number
    of buckets, [Reset] sets it to 0, and [Add], a tick, [Stop], [Total]
    and [Average] leave it as it is; so after a [Reset] it is 0 in every
    state the instance reaches. *)
Theorem size_never_increases :
  (forall w g sw,
     Go.in_int64 w -> Go.in_int64 g -> New w g = Done (Ok sw) ->
     size sw = len (samples sw) /\ size sw = w / g) /\
  (forall sw sw', Reset sw = Done sw' -> size sw' = 0) /\
  (forall sw sw' v, Add sw v = Done sw' -> size sw' = size sw) /\
  (forall sw sw', tick sw = Done sw' -> size sw' = size sw) /\
  (forall sw sw', Stop sw = Done sw' -> size sw' = size sw) /\
  (forall sw sw' d,
     exec (OpTotal d) sw = Done sw' \/ exec (OpAverage d) sw = Done sw' ->
     sw' = sw) /\
  (forall sw sw' o,
     reachable sw -> exec o sw = Done sw' -> size sw' <= size sw) /\
  (forall sw sw1 ops sw2,
     Reset sw = Done sw1 -> run ops sw1 = Done sw2 -> size sw2 = 0).
Proof.
  repeat apply conj.
  - intros w g sw Hw Hg Hn.
    destruct (New_inv w g sw Hw Hg Hn) as (Hg0 & Hlt & Hr & H2 & ->).
    simpl. rewrite len_replicate. lia.
  - intros sw sw' Hr. exact (exec_size sw sw' OpReset Hr).
  - intros sw sw' v Ha. exact (exec_size sw sw' (OpAdd v) Ha).
  - intros sw sw' Ht. unfold tick in Ht.
    destruct (store (samples sw) _ _); simpl in Ht; [| discriminate].
    destruct (store (counts sw) _ _); simpl in Ht; [| discriminate].
    by inversion Ht.
  - intros sw sw' Hs. exact (exec_size sw sw' OpStop Hs).
  - intros sw sw' d [He | He].
    + exact (exec_inv_query sw sw' (OpTotal d) I He).
    + exact (exec_inv_query sw sw' (OpAverage d) I He).
  - intros sw sw' o Hre He. apply reachable_wf in Hre as [_ _ _ _ Hs _].
    apply exec_size in He. destruct o; lia.
  - intros sw sw1 ops sw2 Hr. apply run_size_0.
    exact (exec_size sw sw1 OpReset Hr).
Qed.

Lemma size_never_increases_witness :
  size fresh = 10 /\
  exists sw1 sw2,
    Reset fresh = Done sw1 /\
    run [OpAdd 5%float; OpTick; OpTick; OpTotal (2 * Go.Second)] sw1 = Done sw2 /\
    size sw2 = 0.
Proof.
  destruct size_never_increases as (HNew & _ & _ & _ & _ & _ & _ & HReset).
  split.
  - destruct (HNew (10 * Go.Second) Go.Second fresh) as [_ Hsz].
    + vm_compute. split; discriminate.
    + vm_compute. split; discriminate.
    + reflexivity.
    + exact Hsz.
  - eexists. eexists.
    split; [reflexivity |]. split; [reflexivity |].
    eapply (HReset fresh _ [OpAdd 5%float; OpTick; OpTick; OpTotal (2 * Go.Second)]);
      reflexivity.
Defined.

(** ** Queries that visit no bucket *)

Lemma Total_size_0 (sw : SlidingWindow) (d : Z) :
  wf sw -> size sw = 0 -> Total sw d = Done (0%float, 0).
Proof.
  intros Hwf H0.
  apply (Total_no_bucket sw d (Go.wrap64 (Z.quot (clamp sw d) (granularity sw))));
    [| lia].
  unfold div. destruct (Z.eqb_spec (granularity sw) 0); [| done].
  destruct Hwf. lia.
Qed.

Lemma Total_nonpos (sw : SlidingWindow) (d : Z) :
  wf sw -> Go.in_int64 d -> d <= 0 -> Total sw d = Done (0%float, 0).
Proof.
  intros Hwf Hd Hle. destruct Hwf as [Hg _ _ _ _ Hw].
  assert (clamp sw d = d) as Hc.
  { unfold clamp. destruct (Z.gtb_spec d (window sw)); [lia | done]. }
  destruct (div_nonpos d (granularity sw) Hd Hg Hle) as (q & Hq & Hq0).
  apply (Total_no_bucket sw d q); [by rewrite Hc | lia].
Qed.

(** C3, the code after a reset.  On a fresh instance of 10 buckets that is
    reset and then receives [Add(5)], the bucket that holds the 5 is still
    in the buffer nine ticks later, yet [Total(10s)] returns (0, 0); and
    whatever the number of ticks, the retained count stays 0 and no
    lookback makes [Total] return anything but (0, 0): the ticks do not
    restore what [Reset] cleared of the retained count. *)
Theorem Reset_hides_later_samples :
  (sw <- ticks_after_reset 9 ;;
   r <- Total sw (10 * Go.Second) ;;
   Done (samples sw !! 0%nat, pos sw, size sw, r))
  = Done (Some 5%float, 9, 0, (0%float, 0)) /\
  ~ (exists (k : nat) (sw : SlidingWindow),
       ticks_after_reset k = Done sw /\
       (0 < size sw \/ exists d, Total sw d <> Done (0%float, 0))).
Proof.
  split; [vm_compute; reflexivity |].
  intros (k & sw & Hk & Hobs). unfold ticks_after_reset in Hk.
  pose proof (reachable_wf fresh reachable_fresh) as Hwf.
  destruct (exec_wf fresh OpReset Hwf) as (sw1 & H1 & Hwf1). simpl in H1.
  pose proof (exec_size fresh sw1 OpReset H1) as Hs1. simpl in Hs1.
  rewrite H1 in Hk. simpl in Hk.
  destruct (exec_wf sw1 (OpAdd 5%float) Hwf1) as (sw2 & H2 & Hwf2). simpl in H2.
  pose proof (exec_size sw1 sw2 (OpAdd 5%float) H2) as Hs2. simpl in Hs2.
  rewrite H2 in Hk. simpl in Hk.
  destruct (run_wf (replicate k OpTick) sw2 Hwf2) as (sw3 & H3 & Hwf3).
  assert (sw3 = sw) as -> by congruence.
  assert (size sw = 0) as Hs
    by (apply (run_size_0 (replicate k OpTick) sw2 sw); [lia | done]).
  destruct Hobs as [Hpos | [d Hd]]; [lia |].
  apply Hd. by apply Total_size_0.
Qed.

(** The same on every state of an instance: [Reset] writes 0 to the
    retained count, which only [New] sets to the number of buckets, so
    from then on [Total] visits no bucket. *)
Lemma Reset_empties_for_good (sw : SlidingWindow) :
  reachable sw ->
  exists sw1,
    Reset sw = Done sw1 /\
    forall ops : list op,
      exists sw2,
        run ops sw1 = Done sw2 /\ size sw2 = 0 /\
        forall d : Z, Total sw2 d = Done (0%float, 0).
Proof.
  intros Hwf%reachable_wf.
  destruct (exec_wf sw OpReset Hwf) as (sw1 & H1 & Hwf1). simpl in H1.
  exists sw1. split; [done |]. intros ops.
  destruct (run_wf ops sw1 Hwf1) as (sw2 & H2 & Hwf2).
  exists sw2. split; [done |].
  assert (size sw2 = 0) as Hs.
  { apply (run_size_0 ops sw1 sw2); [| done].
    exact (exec_size sw sw1 OpReset H1). }
  split; [done |]. intros d. by apply Total_size_0.
Qed.

(** C10. On every state of an instance, a negative lookback makes [Total]
    return (0, 0) and [Average] return 0, as a lookback of zero does. *)
Theorem negative_lookback (sw : SlidingWindow) (d : Z) :
  reachable sw -> Go.in_int64 d -> d < 0 ->
  Total sw d = Done (0%float, 0) /\ Average sw d = Done 0%float /\
  Total sw 0 = Done (0%float, 0) /\ Average sw 0 = Done 0%float.
Proof.
  intros Hwf%reachable_wf Hd Hneg.
  assert (Total sw d = Done (0%float, 0)) as Ht
    by (apply Total_nonpos; (done || lia)).
  assert (Total sw 0 = Done (0%float, 0)) as Ht0
    by (apply Total_nonpos; [done | apply in_int64_0 | lia]).
  auto using Average_no_bucket.
Qed.

Lemma negative_lookback_witness :
  reachable after_adds /\
  Total after_adds (- Go.Second) = Done (0%float, 0) /\
  Average after_adds (- Go.Second) = Done 0%float /\
  Total after_adds 0 = Done (0%float, 0) /\
  Average after_adds 0 = Done 0%float.
Proof.
  assert (reachable after_adds) as Hre.
  { exists (10 * Go.Second), Go.Second, fresh,
      [OpAdd 4%float; OpAdd 6%float; OpTick; OpAdd 1%float].
    split; [by_evaluation |]. split; [by_evaluation |].
    split; reflexivity. }
  split; [exact Hre |].
  apply (negative_lookback after_adds (- Go.Second) Hre);
    by_evaluation.
Defined.

(** ** Invariants of an instance *)

Section Invariants.
Implicit Types (sw : SlidingWindow) (o : op) (ops : list op).

Lemma wrap64_in_int64 (z : Z) : Go.in_int64 (Go.wrap64 z).
Proof.
  unfold Go.in_int64, Go.minInt64, Go.maxInt64, Go.wrap64.
  change (2 ^ 63) with 9223372036854775808.
  change (2 ^ 64) with 18446744073709551616.
  pose proof (Z.mod_pos_bound (z + 9223372036854775808) 18446744073709551616).
  lia.
Qed.

Lemma New_inv_holds (w g : Z) sw :
  Go.in_int64 w -> Go.in_int64 g -> New w g = Done (Ok sw) -> inv sw.
Proof.
  intros Hw Hg Hn. pose proof (New_wf w g sw Hw Hg Hn) as Hwf.
  destruct (New_inv w g sw Hw Hg Hn) as (Hg0 & Hlt & Hr & H2 & ->).
  constructor; simpl; rewrite ?len_replicate; try done.
  - rewrite Z2Nat.id by lia.
    apply rem_zero_iff_mod_zero in Hr; [| lia].
    pose proof (Z.div_mod w g). lia.
  - left. lia.
  - apply Forall_replicate. apply in_int64_0.
Qed.

Lemma exec_inv sw sw' o : inv sw -> exec o sw = Done sw' -> inv sw'.
Proof.
  intros [Hwf Hw He Hs Hc] Hx.
  pose proof (exec_preserves_wf sw sw' o Hwf Hx) as Hwf'.
  destruct o as [v | | | | d | d]; simpl in Hx.
  - destruct (Add_Done sw v Hwf) as (x & n & _ & _ & Ha).
    rewrite Ha in Hx. inversion Hx; subst.
    constructor; simpl; rewrite ?len_insert; try done.
    apply Forall_insert; [done | apply wrap64_in_int64].
  - destruct (stopOnce sw); [by inversion Hx; subst |].
    rewrite tick_Done in Hx by done. inversion Hx; subst.
    constructor; simpl; rewrite ?len_insert; try done.
    apply Forall_insert; [done | apply in_int64_0].
  - rewrite Reset_Done in Hx by (by destruct Hwf). inversion Hx; subst.
    constructor; simpl; rewrite ?len_replicate; try done.
    + by right.
    + apply Forall_replicate. apply in_int64_0.
  - unfold Stop in Hx. destruct (stopOnce sw); inversion Hx; subst; done.
  - by rewrite (exec_inv_query sw sw' (OpTotal d) I Hx).
  - by rewrite (exec_inv_query sw sw' (OpAverage d) I Hx).
Qed.

Lemma run_inv ops : forall sw sw', inv sw -> run ops sw = Done sw' -> inv sw'.
Proof.
  induction ops as [| o ops IH]; intros sw sw' Hi; simpl.
  - intros Hr. by inversion Hr; subst.
  - destruct (exec o sw) as [sw1 |] eqn:He; simpl; [| discriminate].
    apply IH. by apply (exec_inv sw sw1 o).
Qed.

Lemma reachable_inv sw : reachable sw -> inv sw.
Proof.
  intros (w & g & sw0 & ops & Hw & Hg & Hn & Hr).
  apply (run_inv ops sw0 sw); [| done]. by apply (New_inv_holds w g).
Qed.

(** No call changes the window, the granularity or the number of
    buckets. *)
Lemma exec_frame sw sw' o :
  exec o sw = Done sw' ->
  window sw' = window sw /\ granularity sw' = granularity sw /\
  (wf sw -> length (samples sw') = length (samples sw)).
Proof.
  intros Hx. destruct o as [v | | | | d | d]; simpl in Hx.
  - unfold Add in Hx.
    destruct (index (samples sw) (pos sw)); simpl in Hx; [| discriminate].
    destruct (store (samples sw) (pos sw) _) as [s |] eqn:Hs; simpl in Hx;
      [| discriminate].
    destruct (index (counts sw) (pos sw)); simpl in Hx; [| discriminate].
    destruct (store (counts sw) (pos sw) _); simpl in Hx; [| discriminate].
    inversion Hx; subst. simpl. apply store_inv in Hs as [_ ->].
    by rewrite length_insert.
  - destruct (stopOnce sw); [by inversion Hx; subst |].
    unfold tick in Hx.
    destruct (store (samples sw) _ _) as [s |] eqn:Hs; simpl in Hx;
      [| discriminate].
    destruct (store (counts sw) _ _); simpl in Hx; [| discriminate].
    inversion Hx; subst. simpl. apply store_inv in Hs as [_ ->].
    by rewrite length_insert.
  - pose proof (Reset_inv sw sw' Hx) as (_ & _ & Hw & Hg & _).
    split; [done |]. split; [done |]. intros Hwf.
    rewrite Reset_Done in Hx by (by destruct Hwf). inversion Hx; subst.
    simpl. by rewrite length_replicate.
  - unfold Stop in Hx. destruct (stopOnce sw); by inversion Hx; subst.
  - by rewrite (exec_inv_query sw sw' (OpTotal d) I Hx).
  - by rewrite (exec_inv_query sw sw' (OpAverage d) I Hx).
Qed.

Lemma run_frame ops :
  forall sw sw', wf sw -> run ops sw = Done sw' ->
    window sw' = window sw /\ granularity sw' = granularity sw /\
    length (samples sw') = length (samples sw).
Proof.
  induction ops as [| o ops IH]; intros sw sw' Hwf; simpl.
  - intros Hr. by inversion Hr; subst.
  - destruct (exec o sw) as [sw1 |] eqn:He; simpl; [| discriminate].
    intros Hr. pose proof (exec_preserves_wf sw sw1 o Hwf He) as Hwf1.
    destruct (exec_frame sw sw1 o He) as (Hw & Hg & Hl).
    destruct (IH sw1 sw' Hwf1 Hr) as (Hw' & Hg' & Hl').
    rewrite Hw', Hg', Hl', Hw, Hg, (Hl Hwf). done.
Qed.

End Invariants.

(** The interval of the [int64] values, by evaluation. *)
Ltac int64_by_evaluation := vm_compute; split; discriminate.

(** Every call made on an instance returns: no index leaves the buckets
    and no division is by zero, whatever calls and ticks came before. *)
Theorem instance_never_panics (sw : SlidingWindow) (ops : list op) (d : Z) :
  reachable sw ->
  (exists sw', run ops sw = Done sw' /\ reachable sw') /\
  (exists r, Total sw d = Done r) /\
  (exists a, Average sw d = Done a).
Proof.
  intros Hre. pose proof (reachable_wf sw Hre) as Hwf.
  split; [| split; [by apply Total_Done | by apply Average_Done]].
  destruct (run_wf ops sw Hwf) as (sw' & Hr & _).
  exists sw'. split; [done |].
  destruct Hre as (w & g & sw0 & ops0 & Hw & Hg & Hn & Hr0).
  exists w, g, sw0, (ops0 ++ ops).
  split; [done |]. split; [done |]. split; [done |].
  by rewrite run_app, Hr0.
Qed.

Lemma instance_never_panics_witness :
  reachable after_adds /\
  (exists sw',
     run [OpTick; OpAdd 3%float; OpReset; OpStop; OpTick] after_adds = Done sw' /\
     reachable sw') /\
  (exists r, Total after_adds (3 * Go.Second) = Done r) /\
  (exists a, Average after_adds (3 * Go.Second) = Done a).
Proof.
  assert (reachable after_adds) as Hre.
  { exists (10 * Go.Second), Go.Second, fresh,
      [OpAdd 4%float; OpAdd 6%float; OpTick; OpAdd 1%float].
    split; [int64_by_evaluation |]. split; [int64_by_evaluation |].
    split; reflexivity. }
  split; [exact Hre |].
  apply (instance_never_panics after_adds
           [OpTick; OpAdd 3%float; OpReset; OpStop; OpTick] (3 * Go.Second) Hre).
Defined.

(** Through every run of calls and ticks an instance keeps the window
    and the granularity it was built with and its [window / granularity]
    buckets; the cursor stays inside the buckets, and the retained count
    is the number of buckets or 0. *)
Theorem instance_invariants (w g : Z) (sw0 sw : SlidingWindow) (ops : list op) :
  Go.in_int64 w -> Go.in_int64 g ->
  New w g = Done (Ok sw0) -> run ops sw0 = Done sw ->
  window sw = w /\ granularity sw = g /\
  len (samples sw) = w / g /\ len (counts sw) = w / g /\
  0 <= pos sw < w / g /\
  (size sw = w / g \/ size sw = 0) /\
  Forall Go.in_int64 (counts sw).
Proof.
  intros Hw Hg Hn Hr.
  pose proof (New_wf w g sw0 Hw Hg Hn) as Hwf0.
  pose proof (New_inv_holds w g sw0 Hw Hg Hn) as Hi0.
  destruct (run_frame ops sw0 sw Hwf0 Hr) as (Hfw & Hfg & Hfl).
  destruct (run_inv ops sw0 sw Hi0 Hr) as [[Hg0 Hc Hp Hl Hs Hw0] _ _ Hsz Hcs].
  destruct (New_inv w g sw0 Hw Hg Hn) as (_ & _ & _ & H2 & ->).
  simpl in *. rewrite length_replicate in Hfl.
  assert (len (samples sw) = w / g) as Hlen by (unfold len; lia).
  rewrite Hlen in *.
  repeat split; try done; try lia. unfold len. lia.
Qed.

Lemma instance_invariants_witness :
  window after_adds = 10 * Go.Second /\ granularity after_adds = Go.Second /\
  len (samples after_adds) = 10 * Go.Second / Go.Second /\
  len (counts after_adds) = 10 * Go.Second / Go.Second /\
  0 <= pos after_adds < 10 * Go.Second / Go.Second /\
  (size after_adds = 10 * Go.Second / Go.Second \/ size after_adds = 0) /\
  Forall Go.in_int64 (counts after_adds).
Proof.
  apply (instance_invariants (10 * Go.Second) Go.Second fresh after_adds
           [OpAdd 4%float; OpAdd 6%float; OpTick; OpAdd 1%float]).
  - int64_by_evaluation.
  - int64_by_evaluation.
  - reflexivity.
  - reflexivity.
Defined.

(** ** When construction succeeds *)








(** ** What [Add] and [Reset] write *)

(** [Add] adds its argument to the value of the bucket under the cursor
    and one to its count (wrapping at the end of [int64]); every other
    bucket, the cursor, the retained count, the window and the granularity
    stay as they were. *)
Theorem Add_writes_current_bucket (sw : SlidingWindow) (v : float) :
  wf sw ->
  exists (sw' : SlidingWindow) (x : float) (n : Z),
    Add sw v = Done sw' /\
    samples sw !! Z.to_nat (pos sw) = Some x /\
    counts sw !! Z.to_nat (pos sw) = Some n /\
    samples sw' !! Z.to_nat (pos sw) = Some (x + v)%float /\
    counts sw' !! Z.to_nat (pos sw) = Some (Go.wrap64 (n + 1)) /\
    (Go.minInt64 <= n < Go.maxInt64 -> Go.wrap64 (n + 1) = n + 1) /\
    (forall i : nat, i <> Z.to_nat (pos sw) ->
       samples sw' !! i = samples sw !! i /\ counts sw' !! i = counts sw !! i) /\
    length (samples sw') = length (samples sw) /\
    length (counts sw') = length (counts sw) /\
    pos sw' = pos sw /\ size sw' = size sw /\
    window sw' = window sw /\ granularity sw' = granularity sw.
Proof.
  intros Hwf. destruct (Add_Done sw v Hwf) as (x & n & Hx & Hn & Ha).
  destruct Hwf as [Hg Hc Hp Hl Hs Hw].
  eexists _, x, n. split; [exact Ha |]. simpl.
  split; [done |]. split; [done |].
  split; [apply list_lookup_insert_eq; unfold len in *; lia |].
  split; [apply list_lookup_insert_eq; unfold len in *; lia |].
  split.
  { intros Hr. apply wrap64_id.
    unfold Go.in_int64, Go.minInt64, Go.maxInt64 in *. lia. }
  split.
  { intros i Hi. by rewrite !list_lookup_insert_ne. }
  by rewrite !length_insert.
Qed.

Lemma Add_writes_current_bucket_witness :
  wf fixture_total /\
  exists (sw' : SlidingWindow) (x : float) (n : Z),
    Add fixture_total 1%float = Done sw' /\
    samples fixture_total !! Z.to_nat (pos fixture_total) = Some x /\
    counts fixture_total !! Z.to_nat (pos fixture_total) = Some n /\
    samples sw' !! Z.to_nat (pos fixture_total) = Some (x + 1)%float /\
    counts sw' !! Z.to_nat (pos fixture_total) = Some (Go.wrap64 (n + 1)) /\
    (Go.minInt64 <= n < Go.maxInt64 -> Go.wrap64 (n + 1) = n + 1) /\
    (forall i : nat, i <> Z.to_nat (pos fixture_total) ->
       samples sw' !! i = samples fixture_total !! i /\
       counts sw' !! i = counts fixture_total !! i) /\
    length (samples sw') = length (samples fixture_total) /\
    length (counts sw') = length (counts fixture_total) /\
    pos sw' = pos fixture_total /\ size sw' = size fixture_total /\
    window sw' = window fixture_total /\
    granularity sw' = granularity fixture_total.
Proof.
  assert (wf fixture_total) as Hwf.
  { constructor; by_evaluation. }
  split; [exact Hwf | apply (Add_writes_current_bucket fixture_total 1%float Hwf)].
Defined.

(** [Reset] returns whenever the two slices have one length, and then
    every bucket has value 0 and count 0, the cursor and the retained
    count are 0, and the number of buckets, the window and the granularity
    are as before. *)
Theorem Reset_zeroes_every_bucket (sw : SlidingWindow) :
  length (counts sw) = length (samples sw) ->
  exists sw',
    Reset sw = Done sw' /\
    pos sw' = 0 /\ size sw' = 0 /\
    length (samples sw') = length (samples sw) /\
    length (counts sw') = length (samples sw) /\
    (forall i : nat, (i < length (samples sw))%nat ->
       samples sw' !! i = Some 0%float /\ counts sw' !! i = Some 0) /\
    window sw' = window sw /\ granularity sw' = granularity sw /\
    stopOnce sw' = stopOnce sw.
Proof.
  intros Hc. rewrite Reset_Done by done.
  eexists. split; [reflexivity |]. simpl.
  rewrite !length_replicate. repeat split; try done.
  - by apply lookup_replicate_2.
  - by apply lookup_replicate_2.
Qed.

Lemma Reset_zeroes_every_bucket_witness :
  exists sw',
    Reset fixture_total = Done sw' /\
    pos sw' = 0 /\ size sw' = 0 /\
    length (samples sw') = length (samples fixture_total) /\
    length (counts sw') = length (samples fixture_total) /\
    (forall i : nat, (i < length (samples fixture_total))%nat ->
       samples sw' !! i = Some 0%float /\ counts sw' !! i = Some 0) /\
    window sw' = window fixture_total /\
    granularity sw' = granularity fixture_total /\
    stopOnce sw' = stopOnce fixture_total.
Proof.
  apply (Reset_zeroes_every_bucket fixture_total). reflexivity.
Defined.

(** ** The buckets [Total] sums *)

Section TotalSum.
Implicit Types (sw : SlidingWindow) (d : Z).

(** The index the loop of [Total] computes is the cursor minus the loop
    variable, modulo the number of buckets. *)
Lemma loop_index sw (i : Z) :
  wf sw -> 0 <= i < len (samples sw) ->
  (if Go.wrap64 (pos sw - i) <? 0
   then Go.wrap64 (Go.wrap64 (pos sw - i) + len (samples sw))
   else Go.wrap64 (pos sw - i))
  = (pos sw - i) mod len (samples sw).
Proof.
  intros [Hg Hc Hp Hl Hs Hw] Hi.
  rewrite wrap64_id
    by (unfold Go.in_int64, Go.minInt64, Go.maxInt64 in *; lia).
  destruct (Z.ltb_spec (pos sw - i) 0) as [Hn | Hn].
  - rewrite wrap64_id
      by (unfold Go.in_int64, Go.minInt64, Go.maxInt64 in *; lia).
    apply (Z.mod_unique _ _ (-1)); lia.
  - by rewrite Z.mod_small by lia.
Qed.

Lemma total_loop_visited sw (n : nat) :
  wf sw ->
  forall (i : Z) (total : float) (totalCount : Z),
    0 <= i -> i + Z.of_nat n <= len (samples sw) ->
    total_loop sw n i total totalCount =
      Done (add_float total (values_at sw (visited_from sw i n)),
            add_int64 totalCount (counts_at sw (visited_from sw i n))).
Proof.
  intros Hwf. induction n as [| n IH]; intros i total totalCount Hi Hn.
  - done.
  - cbn [total_loop]. cbv zeta. rewrite loop_index by (done || lia).
    assert (0 <= (pos sw - i) mod len (samples sw) < len (samples sw)) as Hp
      by (apply Z.mod_pos_bound; lia).
    destruct (index_Done (samples sw) _ Hp) as (x & -> & Hx).
    destruct (index_Done (counts sw) ((pos sw - i) mod len (samples sw)))
      as (k & -> & Hk).
    { destruct Hwf. unfold len in *. lia. }
    simpl. rewrite IH by lia.
    unfold values_at, counts_at, add_float, add_int64. simpl.
    by rewrite Hx, Hk.
Qed.

(** The number of iterations [Total] makes. *)
Lemma sample_count sw d :
  inv sw -> Go.in_int64 d ->
  exists q,
    div (clamp sw d) (granularity sw) = Done q /\
    Z.to_nat (if q >? size sw then size sw else q) = buckets_to_sum sw d.
Proof.
  intros [[Hg Hc Hp Hl Hs Hw] Hwi He Hsz Hcs] Hd. unfold buckets_to_sum.
  destruct (Z_lt_le_dec d 0) as [Hneg | Hpos].
  - assert (clamp sw d = d) as ->.
    { unfold clamp. destruct (Z.gtb_spec d (window sw)); [lia | done]. }
    destruct (div_nonpos d (granularity sw)) as (q & Hq & Hq0);
      [done | done | lia |].
    exists q. split; [done |].
    assert (d / granularity sw < 0) by (apply Z.div_lt_upper_bound; lia).
    destruct (Z.gtb_spec q (size sw)); lia.
  - unfold clamp. destruct (Z.gtb_spec d (window sw)) as [Hgt | Hle].
    + exists (len (samples sw)). split.
      * rewrite div_positive by (done || lia).
        by rewrite He, Z.div_mul by lia.
      * assert (len (samples sw) <= d / granularity sw).
        { apply Z.div_le_lower_bound; lia. }
        destruct (Z.gtb_spec (len (samples sw)) (size sw)); lia.
    + exists (d / granularity sw). split.
      * by rewrite div_positive.
      * destruct (Z.gtb_spec (d / granularity sw) (size sw)); lia.
Qed.

Lemma Total_visited sw d :
  inv sw -> Go.in_int64 d ->
  Total sw d =
    Done (add_float 0%float (values_at sw (visited sw (buckets_to_sum sw d))),
          add_int64 0 (counts_at sw (visited sw (buckets_to_sum sw d)))).
Proof.
  intros Hi Hd. destruct (sample_count sw d Hi Hd) as (q & Hq & Hn).
  unfold Total. fold (clamp sw d). rewrite Hq. simpl. rewrite Hn.
  apply total_loop_visited; [by destruct Hi | lia |].
  destruct Hi as [[Hg Hc Hp Hl Hs Hw] _ _ _ _].
  unfold buckets_to_sum. lia.
Qed.

End TotalSum.

(** On every state of an instance, [Total] visits
    [min (d / granularity) retained] buckets (none for a negative
    lookback), backward from the cursor and modulo the number of buckets,
    and returns the sum of their values, added from the left in
    [float64] starting from 0, and the sum of their counts in [int64]. *)
Theorem Total_sums_visited_buckets (sw : SlidingWindow) (d : Z) :
  reachable sw -> Go.in_int64 d ->
  Total sw d =
    Done (add_float 0%float (values_at sw (visited sw (buckets_to_sum sw d))),
          add_int64 0 (counts_at sw (visited sw (buckets_to_sum sw d)))) /\
  visited sw (buckets_to_sum sw d) =
    (fun i : nat =>
       Z.to_nat ((pos sw - Z.of_nat i) mod len (samples sw)))
      <$> seq 0 (buckets_to_sum sw d) /\
  (buckets_to_sum sw d <= length (samples sw))%nat.
Proof.
  intros Hre%reachable_inv Hd. split; [by apply Total_visited |].
  split.
  - unfold visited. generalize (buckets_to_sum sw d). intros n.
    change 0 with (Z.of_nat 0) at 1. generalize 0%nat.
    induction n as [| n IH]; intros k; simpl; [done |].
    f_equal. rewrite <- IH. f_equal. lia.
  - destruct Hre as [[Hg Hc Hp Hl Hs Hw] _ _ _ _].
    unfold buckets_to_sum, len in *. lia.
Qed.

Lemma Total_sums_visited_buckets_witness :
  reachable after_adds /\
  Total after_adds (3 * Go.Second) =
    Done (add_float 0%float
            (values_at after_adds
               (visited after_adds (buckets_to_sum after_adds (3 * Go.Second)))),
          add_int64 0
            (counts_at after_adds
               (visited after_adds (buckets_to_sum after_adds (3 * Go.Second))))) /\
  visited after_adds (buckets_to_sum after_adds (3 * Go.Second)) =
    (fun i : nat =>
       Z.to_nat ((pos after_adds - Z.of_nat i) mod len (samples after_adds)))
      <$> seq 0 (buckets_to_sum after_adds (3 * Go.Second)) /\
  (buckets_to_sum after_adds (3 * Go.Second) <= length (samples after_adds))%nat.
Proof.
  assert (reachable after_adds) as Hre.
  { exists (10 * Go.Second), Go.Second, fresh,
      [OpAdd 4%float; OpAdd 6%float; OpTick; OpAdd 1%float].
    split; [int64_by_evaluation |]. split; [int64_by_evaluation |].
    split; reflexivity. }
  split; [exact Hre |].
  apply (Total_sums_visited_buckets after_adds (3 * Go.Second) Hre).
  int64_by_evaluation.
Defined.

(** The buckets visited in the witness: the cursor, the one before it,
    and the last one of the buffer. *)
Example visited_wraps :
  visited after_adds (buckets_to_sum after_adds (3 * Go.Second)) = [1; 0; 9]%nat.
Proof. reflexivity. Qed.

(** ** How the lookback is read *)

(** A lookback shorter than one granularity covers no bucket: [Total]
    returns (0, 0) and [Average] 0, whatever the current bucket holds. *)
Theorem Total_below_granularity (sw : SlidingWindow) (d : Z) :
  reachable sw -> Go.in_int64 d -> d < granularity sw ->
  Total sw d = Done (0%float, 0) /\ Average sw d = Done 0%float.
Proof.
  intros Hre%reachable_inv Hd Hlt.
  assert (Total sw d = Done (0%float, 0)) as Ht.
  { rewrite Total_visited by done.
    assert (buckets_to_sum sw d = 0%nat) as ->; [| done].
    unfold buckets_to_sum.
    destruct Hre as [[Hg _ _ _ _ _] _ _ _ _].
    assert (d / granularity sw <= 0); [| lia].
    assert (d / granularity sw < 1); [| lia].
    apply Z.div_lt_upper_bound; lia. }
  split; [done | by apply Average_no_bucket].
Qed.

Lemma Total_below_granularity_witness :
  reachable after_adds /\
  Total after_adds (999 * Go.Millisecond) = Done (0%float, 0) /\
  Average after_adds (999 * Go.Millisecond) = Done 0%float.
Proof.
  assert (reachable after_adds) as Hre.
  { exists (10 * Go.Second), Go.Second, fresh,
      [OpAdd 4%float; OpAdd 6%float; OpTick; OpAdd 1%float].
    split; [int64_by_evaluation |]. split; [int64_by_evaluation |].
    split; reflexivity. }
  split; [exact Hre |].
  apply (Total_below_granularity after_adds (999 * Go.Millisecond) Hre).
  - int64_by_evaluation.
  - reflexivity.
Defined.

Lemma Average_of_Total (sw : SlidingWindow) (d1 d2 : Z) :
  Total sw d1 = Total sw d2 -> Average sw d1 = Average sw d2.
Proof. intros Ht. unfold Average. by rewrite Ht. Qed.

Lemma Total_same_buckets (sw : SlidingWindow) (d1 d2 : Z) :
  inv sw -> Go.in_int64 d1 -> Go.in_int64 d2 ->
  Z.min (d1 / granularity sw) (size sw) = Z.min (d2 / granularity sw) (size sw) ->
  Total sw d1 = Total sw d2.
Proof.
  intros Hi Hd1 Hd2 Hmin.
  rewrite !Total_visited by done. unfold buckets_to_sum. by rewrite Hmin.
Qed.

(** [Total] and [Average] read the lookback in whole granularities, at
    most the retained count: two lookbacks that cover as many buckets
    give the same results.  So a lookback is rounded down to a multiple
    of the granularity, and every lookback of at least the window gives
    what the window gives. *)
Theorem Total_whole_buckets (sw : SlidingWindow) (d1 d2 : Z) :
  reachable sw -> Go.in_int64 d1 -> Go.in_int64 d2 ->
  Z.min (d1 / granularity sw) (size sw) = Z.min (d2 / granularity sw) (size sw) ->
  Total sw d1 = Total sw d2 /\ Average sw d1 = Average sw d2.
Proof.
  intros Hre%reachable_inv Hd1 Hd2 Hmin.
  assert (Total sw d1 = Total sw d2) as Ht by (by apply Total_same_buckets).
  split; [done | by apply Average_of_Total].
Qed.

Lemma Total_whole_buckets_witness :
  reachable after_adds /\
  Total after_adds (2500 * Go.Millisecond) = Total after_adds (2 * Go.Second) /\
  Average after_adds (2500 * Go.Millisecond) = Average after_adds (2 * Go.Second).
Proof.
  assert (reachable after_adds) as Hre.
  { exists (10 * Go.Second), Go.Second, fresh,
      [OpAdd 4%float; OpAdd 6%float; OpTick; OpAdd 1%float].
    split; [int64_by_evaluation |]. split; [int64_by_evaluation |].
    split; reflexivity. }
  split; [exact Hre |].
  apply (Total_whole_buckets after_adds (2500 * Go.Millisecond) (2 * Go.Second) Hre).
  - int64_by_evaluation.
  - int64_by_evaluation.
  - reflexivity.
Defined.

(** Every lookback that reaches past the retained buckets, in particular
    every lookback of at least the window, gives what the window gives. *)
Theorem Total_saturates (sw : SlidingWindow) (d : Z) :
  reachable sw -> Go.in_int64 d -> size sw * granularity sw <= d ->
  Total sw d = Total sw (window sw) /\
  Average sw d = Average sw (window sw) /\
  size sw * granularity sw <= window sw.
Proof.
  intros Hre Hd Hle. pose proof (reachable_inv sw Hre) as Hi.
  pose proof Hi as [[Hg Hc Hp Hl Hs Hw] Hwi He Hsz Hcs].
  assert (size sw * granularity sw <= window sw) as Hsw by nia.
  assert (Total sw d = Total sw (window sw)) as Ht.
  { apply Total_same_buckets; try done.
    assert (size sw <= d / granularity sw)
      by (apply Z.div_le_lower_bound; lia).
    assert (size sw <= window sw / granularity sw)
      by (apply Z.div_le_lower_bound; lia).
    lia. }
  split; [done |]. split; [by apply Average_of_Total | done].
Qed.

Lemma Total_saturates_witness :
  reachable after_adds /\
  Total after_adds (3600 * Go.Second) = Total after_adds (window after_adds) /\
  Average after_adds (3600 * Go.Second) = Average after_adds (window after_adds) /\
  size after_adds * granularity after_adds <= window after_adds.
Proof.
  assert (reachable after_adds) as Hre.
  { exists (10 * Go.Second), Go.Second, fresh,
      [OpAdd 4%float; OpAdd 6%float; OpTick; OpAdd 1%float].
    split; [int64_by_evaluation |]. split; [int64_by_evaluation |].
    split; reflexivity. }
  split; [exact Hre |].
  apply (Total_saturates after_adds (3600 * Go.Second) Hre).
  - int64_by_evaluation.
  - vm_compute. discriminate.
Defined.

(** ** Runs of ticks *)

Section Ticks.
Implicit Types (sw : SlidingWindow).

Lemma mod_add_ne (a b n : Z) :
  0 <= a < n -> 1 <= b < n -> (a + b) mod n <> a.
Proof.
  intros Ha Hb. destruct (Z_lt_le_dec (a + b) n) as [Hlt | Hge].
  - rewrite Z.mod_small; lia.
  - rewrite <- (Z.mod_unique (a + b) n 1 (a + b - n)); lia.
Qed.

Lemma mod_add_cap (a n : Z) : 0 <= a < n -> (a + n) mod n = a.
Proof.
  intros Ha. symmetry. apply (Z.mod_unique (a + n) n 1 a); lia.
Qed.

(** The state after [k] ticks with no call in between: the cursor has
    advanced by [k] modulo the number of buckets, the buckets it passed
    are zero, and the others are as before. *)
Lemma run_ticks (k : nat) :
  forall sw,
    inv sw -> stopOnce sw = false ->
    exists sw',
      run (ticks k) sw = Done sw' /\ inv sw' /\ stopOnce sw' = false /\
      len (samples sw') = len (samples sw) /\
      granularity sw' = granularity sw /\ window sw' = window sw /\
      size sw' = size sw /\
      pos sw' = (pos sw + Z.of_nat k) mod len (samples sw) /\
      (forall j : Z, 1 <= j <= Z.of_nat k ->
         samples sw' !! Z.to_nat ((pos sw + j) mod len (samples sw)) = Some 0%float /\
         counts sw' !! Z.to_nat ((pos sw + j) mod len (samples sw)) = Some 0) /\
      (forall i : nat,
         (forall j : Z, 1 <= j <= Z.of_nat k ->
            i <> Z.to_nat ((pos sw + j) mod len (samples sw))) ->
         samples sw' !! i = samples sw !! i /\ counts sw' !! i = counts sw !! i).
Proof.
  induction k as [| k IH]; intros sw Hi Hst.
  - exists sw. pose proof Hi as [[Hg Hc Hp Hl Hs Hw] _ _ _ _].
    simpl. rewrite Z.add_0_r, Z.mod_small by lia.
    split; [done |]. split; [done |]. split; [done |]. split; [done |].
    split; [done |]. split; [done |]. split; [done |]. split; [done |].
    split; [intros; lia | done].
  - pose proof Hi as [Hwf _ _ _ _].
    pose proof Hwf as [Hg Hc Hp Hl Hs Hw].
    assert (exec OpTick sw = tick sw) as Hx by (simpl; by rewrite Hst).
    pose proof (tick_Done sw Hwf) as Ht. rewrite <- Hx in Ht.
    pose proof (exec_inv sw _ OpTick Hi Ht) as Hi1.
    set (sw1 := set_buckets (set_pos sw (next_pos sw))
                  (<[Z.to_nat (next_pos sw) := 0%float]> (samples sw))
                  (<[Z.to_nat (next_pos sw) := 0]> (counts sw))) in *.
    assert (0 <= next_pos sw < len (samples sw)) as Hn
      by (apply Z.mod_pos_bound; lia).
    assert (len (samples sw1) = len (samples sw)) as Hl1
      by (subst sw1; simpl; apply len_insert).
    destruct (IH sw1 Hi1 Hst)
      as (sw' & Hr & Hi' & Hst' & Hl' & Hg' & Hw' & Hs' & Hp' & Hz & Hu).
    rewrite Hl1 in *.
    change (pos sw1) with (next_pos sw) in *.
    assert (forall j : Z,
              (next_pos sw + j) mod len (samples sw)
              = (pos sw + (j + 1)) mod len (samples sw)) as Hshift.
    { intros j. unfold next_pos. rewrite Zplus_mod_idemp_l. f_equal. lia. }
    exists sw'. split.
    { change (ticks (S k)) with (OpTick :: ticks k).
      cbn [run]. rewrite Ht. simpl. exact Hr. }
    split; [done |]. split; [done |]. split; [done |].
    split; [done |]. split; [done |]. split; [done |].
    split.
    { rewrite Hp', Hshift. f_equal. lia. }
    split.
    + intros j Hj. destruct (Z.eq_dec j 1) as [-> | Hj1].
      * fold (next_pos sw).
        destruct (Z_le_gt_dec (len (samples sw)) (Z.of_nat k)) as [Hbig | Hsmall].
        -- specialize (Hz (len (samples sw))).
           rewrite mod_add_cap in Hz by done. apply Hz. lia.
        -- destruct (Hu (Z.to_nat (next_pos sw))) as [Hus Huc].
           { intros j Hj'. pose proof (mod_add_ne (next_pos sw) j (len (samples sw))).
             assert (0 <= (next_pos sw + j) mod len (samples sw))
               by (apply Z.mod_pos_bound; lia).
             lia. }
           rewrite Hus, Huc. subst sw1. simpl.
           split; apply list_lookup_insert_eq; unfold len in *; lia.
      * specialize (Hz (j - 1)). rewrite Hshift in Hz.
        replace (j - 1 + 1) with j in Hz by lia. apply Hz. lia.
    + intros i Hne. destruct (Hu i) as [Hus Huc].
      { intros j Hj. rewrite Hshift. apply Hne. lia. }
      rewrite Hus, Huc. subst sw1. simpl.
      assert (i <> Z.to_nat (next_pos sw)) as Hne1.
      { unfold next_pos. apply Hne. lia. }
      by rewrite !list_lookup_insert_ne.
Qed.

(** Sums of zeros. *)
Lemma add_float_zeros (xs : list float) :
  Forall (fun x => x = 0%float) xs -> add_float 0%float xs = 0%float.
Proof.
  unfold add_float. induction 1 as [| x xs -> _ IH]; simpl; [done |].
  change (0 + 0)%float with 0%float. exact IH.
Qed.

Lemma add_int64_zeros (ks : list Z) :
  Forall (fun k => k = 0) ks -> add_int64 0 ks = 0.
Proof.
  unfold add_int64. induction 1 as [| k ks -> _ IH]; simpl; [done |].
  change (Go.wrap64 (0 + 0)) with 0. exact IH.
Qed.

End Ticks.

(** While the shifter runs, [k] ticks with no call in between advance
    the cursor by [k] modulo the number of buckets, zero the value and the
    count of each of the buckets the cursor passes, and leave every other
    bucket and the retained count as they were. *)
Theorem ticks_zero_passed_buckets (sw : SlidingWindow) (k : nat) :
  reachable sw -> stopOnce sw = false ->
  exists sw',
    run (ticks k) sw = Done sw' /\
    pos sw' = (pos sw + Z.of_nat k) mod len (samples sw) /\
    size sw' = size sw /\
    (forall j : Z, 1 <= j <= Z.of_nat k ->
       samples sw' !! Z.to_nat ((pos sw + j) mod len (samples sw)) = Some 0%float /\
       counts sw' !! Z.to_nat ((pos sw + j) mod len (samples sw)) = Some 0) /\
    (forall i : nat,
       (forall j : Z, 1 <= j <= Z.of_nat k ->
          i <> Z.to_nat ((pos sw + j) mod len (samples sw))) ->
       samples sw' !! i = samples sw !! i /\ counts sw' !! i = counts sw !! i).
Proof.
  intros Hi%reachable_inv Hst.
  destruct (run_ticks k sw Hi Hst)
    as (sw' & Hr & _ & _ & _ & _ & _ & Hs & Hp & Hz & Hu).
  exists sw'. auto.
Qed.

Lemma ticks_zero_passed_buckets_witness :
  reachable after_adds /\ stopOnce after_adds = false /\
  exists sw',
    run (ticks 3) after_adds = Done sw' /\
    pos sw' = (pos after_adds + Z.of_nat 3) mod len (samples after_adds) /\
    size sw' = size after_adds /\
    (forall j : Z, 1 <= j <= Z.of_nat 3 ->
       samples sw' !! Z.to_nat ((pos after_adds + j) mod len (samples after_adds))
         = Some 0%float /\
       counts sw' !! Z.to_nat ((pos after_adds + j) mod len (samples after_adds))
         = Some 0) /\
    (forall i : nat,
       (forall j : Z, 1 <= j <= Z.of_nat 3 ->
          i <> Z.to_nat ((pos after_adds + j) mod len (samples after_adds))) ->
       samples sw' !! i = samples after_adds !! i /\
       counts sw' !! i = counts after_adds !! i).
Proof.
  assert (reachable after_adds) as Hre.
  { exists (10 * Go.Second), Go.Second, fresh,
      [OpAdd 4%float; OpAdd 6%float; OpTick; OpAdd 1%float].
    split; [int64_by_evaluation |]. split; [int64_by_evaluation |].
    split; reflexivity. }
  split; [exact Hre |]. split; [reflexivity |].
  apply (ticks_zero_passed_buckets after_adds 3 Hre). reflexivity.
Defined.

Lemma visited_zero (sw : SlidingWindow) (n : nat) :
  forall i0 : Z,
    (forall i : Z, i0 <= i < i0 + Z.of_nat n ->
       samples sw !! Z.to_nat ((pos sw - i) mod len (samples sw)) = Some 0%float /\
       counts sw !! Z.to_nat ((pos sw - i) mod len (samples sw)) = Some 0) ->
    Forall (fun x => x = 0%float) (values_at sw (visited_from sw i0 n)) /\
    Forall (fun k => k = 0) (counts_at sw (visited_from sw i0 n)).
Proof.
  induction n as [| n IH]; intros i0 Hz; simpl.
  - split; constructor.
  - destruct (Hz i0) as [Hs Hc]; [lia |].
    destruct (IH (i0 + 1)) as [Hv Hk].
    { intros i Hi. apply Hz. lia. }
    unfold values_at, counts_at in *. simpl. rewrite Hs, Hc. simpl.
    split; constructor; done.
Qed.

(** After [k] ticks with no call in between, a lookback of at most [k]
    granularities sees only buckets the cursor has passed: [Total]
    returns (0, 0) and [Average] returns 0.  After as many ticks as there
    are buckets, everything added before is forgotten. *)
Theorem Total_after_ticks (sw sw' : SlidingWindow) (k : nat) (d : Z) :
  reachable sw -> stopOnce sw = false -> Go.in_int64 d ->
  d / granularity sw <= Z.of_nat k ->
  run (ticks k) sw = Done sw' ->
  Total sw' d = Done (0%float, 0) /\ Average sw' d = Done 0%float.
Proof.
  intros Hi%reachable_inv Hst Hd Hk Hr.
  destruct (run_ticks k sw Hi Hst)
    as (sw'' & Hr' & Hi' & _ & Hl & Hg & _ & _ & Hp & Hz & _).
  assert (sw'' = sw') as -> by congruence.
  assert (Total sw' d = Done (0%float, 0)) as Ht.
  { rewrite Total_visited by done.
    pose proof Hi' as [[Hg0 Hc Hp0 Hl0 Hs Hw] _ _ _ _].
    assert (Z.of_nat (buckets_to_sum sw' d) <= Z.of_nat k) as Hn.
    { unfold buckets_to_sum. rewrite Hg. lia. }
    assert (Z.of_nat (buckets_to_sum sw' d) <= len (samples sw')) as Hn'.
    { unfold buckets_to_sum. lia. }
    destruct (visited_zero sw' (buckets_to_sum sw' d) 0) as [Hv Hc0].
    { intros i Hi0. rewrite Hp, Hl.
      rewrite Zminus_mod_idemp_l.
      replace (pos sw + Z.of_nat k - i) with (pos sw + (Z.of_nat k - i)) by lia.
      apply Hz. lia. }
    unfold visited. by rewrite add_float_zeros, add_int64_zeros. }
  split; [done | by apply Average_no_bucket].
Qed.

Lemma Total_after_ticks_witness :
  reachable after_adds /\
  exists sw',
    run (ticks 10) after_adds = Done sw' /\
    Total sw' (10 * Go.Second) = Done (0%float, 0) /\
    Average sw' (10 * Go.Second) = Done 0%float.
Proof.
  assert (reachable after_adds) as Hre.
  { exists (10 * Go.Second), Go.Second, fresh,
      [OpAdd 4%float; OpAdd 6%float; OpTick; OpAdd 1%float].
    split; [int64_by_evaluation |]. split; [int64_by_evaluation |].
    split; reflexivity. }
  split; [exact Hre |]. eexists. split; [vm_compute; reflexivity |].
  apply (Total_after_ticks after_adds _ 10 (10 * Go.Second) Hre).
  - reflexivity.
  - int64_by_evaluation.
  - vm_compute. discriminate.
  - vm_compute. reflexivity.
Defined.

(** ** What a query sees of the calls of [Add] *)

Section Adds.
Implicit Types (sw : SlidingWindow).

Lemma wrap64_add_l (a b : Z) : Go.wrap64 (Go.wrap64 a + b) = Go.wrap64 (a + b).
Proof.
  unfold Go.wrap64. f_equal.
  replace ((a + 2 ^ 63) mod 2 ^ 64 - 2 ^ 63 + b + 2 ^ 63)
    with ((a + 2 ^ 63) mod 2 ^ 64 + b) by lia.
  rewrite Zplus_mod_idemp_l. f_equal. lia.
Qed.

Lemma wrap64_idem (a : Z) : Go.wrap64 (Go.wrap64 a) = Go.wrap64 a.
Proof. apply wrap64_id, wrap64_in_int64. Qed.

(** One more sample in the first bucket is one more in the sum. *)
Lemma add_int64_succ (ks : list Z) :
  forall a : Z,
    add_int64 (Go.wrap64 (a + 1)) ks = Go.wrap64 (add_int64 (Go.wrap64 a) ks + 1).
Proof.
  unfold add_int64. induction ks as [| k ks IH]; intros a; simpl.
  - by rewrite wrap64_add_l.
  - rewrite !wrap64_add_l.
    replace (a + 1 + k) with (a + k + 1) by lia. apply IH.
Qed.

Lemma mod_sub_ne (a b n : Z) :
  0 <= a < n -> 1 <= b < n -> (a - b) mod n <> a.
Proof.
  intros Ha Hb. destruct (Z_lt_le_dec (a - b) 0) as [Hlt | Hge].
  - rewrite <- (Z.mod_unique (a - b) n (-1) (a - b + n)); lia.
  - rewrite Z.mod_small; lia.
Qed.

Lemma visited_from_ext sw sw' (n : nat) :
  pos sw' = pos sw -> length (samples sw') = length (samples sw) ->
  forall i : Z, visited_from sw' i n = visited_from sw i n.
Proof.
  intros Hp Hl. induction n as [| n IH]; intros i; simpl; [done |].
  unfold len. by rewrite Hp, Hl, IH.
Qed.

(** The buckets visited after the first are not the one under the
    cursor. *)
Lemma visited_from_not_cursor sw (n : nat) :
  wf sw ->
  forall i : Z,
    1 <= i -> i + Z.of_nat n <= len (samples sw) ->
    Forall (fun j => j <> Z.to_nat (pos sw)) (visited_from sw i n).
Proof.
  intros Hwf. induction n as [| n IH]; intros i Hi Hn; simpl; constructor.
  - destruct Hwf as [_ _ Hp _ _ _].
    pose proof (mod_sub_ne (pos sw) i (len (samples sw))).
    assert (0 <= (pos sw - i) mod len (samples sw))
      by (apply Z.mod_pos_bound; lia).
    lia.
  - apply IH; lia.
Qed.

Lemma values_at_insert sw sw' (js : list nat) (p : nat) :
  (forall i : nat, i <> p ->
     samples sw' !! i = samples sw !! i /\ counts sw' !! i = counts sw !! i) ->
  Forall (fun j => j <> p) js ->
  values_at sw' js = values_at sw js /\ counts_at sw' js = counts_at sw js.
Proof.
  intros Hne. unfold values_at, counts_at.
  induction 1 as [| j js Hj _ [IHv IHc]]; [done |].
  rewrite !fmap_cons, IHv, IHc.
  by destruct (Hne j Hj) as [-> ->].
Qed.

(** The bucket under the cursor after a run of calls of [Add]. *)
Lemma run_adds (vs : list float) :
  forall sw (x : float) (c : Z),
    inv sw ->
    samples sw !! Z.to_nat (pos sw) = Some x ->
    counts sw !! Z.to_nat (pos sw) = Some (Go.wrap64 c) ->
    exists sw',
      run (OpAdd <$> vs) sw = Done sw' /\ inv sw' /\
      pos sw' = pos sw /\ size sw' = size sw /\
      granularity sw' = granularity sw /\
      length (samples sw') = length (samples sw) /\
      samples sw' !! Z.to_nat (pos sw) = Some (add_float x vs) /\
      counts sw' !! Z.to_nat (pos sw)
        = Some (Go.wrap64 (c + Z.of_nat (length vs))).
Proof.
  induction vs as [| v vs IH]; intros sw x c Hi Hx Hc.
  - exists sw. simpl. rewrite Z.add_0_r. auto 10.
  - pose proof Hi as [Hwf _ _ _ _].
    destruct (Add_Done sw v Hwf) as (x' & n & Hx' & Hn & Ha).
    assert (x' = x) as -> by congruence.
    assert (n = Go.wrap64 c) as -> by congruence.
    assert (exec (OpAdd v) sw = Add sw v) as He by done.
    rewrite Ha in He. pose proof (exec_inv sw _ (OpAdd v) Hi He) as Hi1.
    set (sw1 := set_buckets sw _ _) in *.
    pose proof Hwf as [Hg Hcl Hp Hl Hs Hw].
    destruct (IH sw1 (x + v)%float (c + 1) Hi1)
      as (sw' & Hr & Hi' & Hp' & Hs' & Hg' & Hl' & Hv' & Hc').
    { subst sw1. simpl. apply list_lookup_insert_eq. unfold len in *. lia. }
    { subst sw1. simpl. rewrite wrap64_add_l.
      apply list_lookup_insert_eq. unfold len in *. lia. }
    exists sw'. cbn [fmap list_fmap run]. rewrite He. simpl.
    split; [exact Hr |]. split; [done |].
    subst sw1. simpl in *. rewrite length_insert in Hl'.
    split; [done |]. split; [done |]. split; [done |]. split; [done |].
    split; [exact Hv' |].
    rewrite Hc'. do 2 f_equal. lia.
Qed.

End Adds.

(** On an instance that has not been reset, a call of [Add] raises the
    sample count [Total] reports by exactly one (modulo 2^64), for every
    lookback of at least one granularity; in the total, the value is added
    to the value of the current bucket, which is the first term of the
    sum. *)
Theorem Add_counts_one_sample (sw sw' : SlidingWindow) (v : float) (d : Z) :
  reachable sw -> Go.in_int64 d -> granularity sw <= d -> size sw <> 0 ->
  Add sw v = Done sw' ->
  exists (x : float) (older : list float) (c : Z),
    samples sw !! Z.to_nat (pos sw) = Some x /\
    Total sw d = Done (add_float (0 + x) older, c) /\
    Total sw' d = Done (add_float (0 + (x + v)) older, Go.wrap64 (c + 1)).
Proof.
  intros Hi%reachable_inv Hd Hge Hsz Ha.
  pose proof (exec_inv sw sw' (OpAdd v) Hi Ha) as Hi'.
  pose proof Hi as [Hwf _ _ Hsize _].
  pose proof Hwf as [Hg Hcl Hp Hl Hs Hw].
  destruct (Add_Done sw v Hwf) as (x & n & Hx & Hn & Ha').
  assert (sw' = set_buckets sw
                  (<[Z.to_nat (pos sw) := (x + v)%float]> (samples sw))
                  (<[Z.to_nat (pos sw) := Go.wrap64 (n + 1)]> (counts sw)))
    as Hsw' by congruence.
  clear Ha Ha'.
  assert (pos sw' = pos sw) as Hp' by (by subst sw').
  assert (length (samples sw') = length (samples sw)) as Hl'
    by (subst sw'; simpl; apply length_insert).
  assert (buckets_to_sum sw' d = buckets_to_sum sw d) as Hb
    by (by subst sw').
  assert (1 <= d / granularity sw) as Hq by (apply Z.div_le_lower_bound; lia).
  assert (exists m : nat, buckets_to_sum sw d = S m /\
                          1 + Z.of_nat m <= len (samples sw)) as (m & Hm & Hmle).
  { exists (Nat.pred (buckets_to_sum sw d)). unfold buckets_to_sum. lia. }
  assert (visited sw (S m)
          = Z.to_nat (pos sw) :: visited_from sw (0 + 1) m) as Hv.
  { unfold visited. simpl. by rewrite Z.sub_0_r, Z.mod_small by lia. }
  assert (visited sw' (S m) = visited sw (S m)) as Hv'
    by (by apply visited_from_ext).
  destruct (values_at_insert sw sw' (visited_from sw (0 + 1) m) (Z.to_nat (pos sw)))
    as [Hvals Hcnts].
  { intros i Hne. subst sw'. simpl. by rewrite !list_lookup_insert_ne. }
  { apply visited_from_not_cursor; (done || lia). }
  exists x, (values_at sw (visited_from sw (0 + 1) m)),
    (add_int64 0 (counts_at sw (visited sw (S m)))).
  split; [done |]. split.
  - rewrite Total_visited, Hm, Hv by done.
    unfold values_at at 1. rewrite fmap_cons, Hx. reflexivity.
  - rewrite Total_visited, Hb, Hm, Hv', Hv by done.
    assert (samples sw' !! Z.to_nat (pos sw) = Some (x + v)%float) as Hx'.
    { subst sw'. simpl. apply list_lookup_insert_eq. unfold len in *. lia. }
    assert (counts sw' !! Z.to_nat (pos sw) = Some (Go.wrap64 (n + 1))) as Hn'.
    { subst sw'. simpl. apply list_lookup_insert_eq. unfold len in *. lia. }
    set (rest := visited_from sw (0 + 1) m) in *.
    assert (values_at sw' (Z.to_nat (pos sw) :: rest)
            = (x + v)%float :: values_at sw rest) as ->.
    { unfold values_at at 1. rewrite fmap_cons, Hx'.
      fold (values_at sw' rest). by rewrite Hvals. }
    assert (counts_at sw' (Z.to_nat (pos sw) :: rest)
            = Go.wrap64 (n + 1) :: counts_at sw rest) as ->.
    { unfold counts_at at 1. rewrite fmap_cons, Hn'.
      fold (counts_at sw' rest). by rewrite Hcnts. }
    assert (counts_at sw (Z.to_nat (pos sw) :: rest)
            = n :: counts_at sw rest) as ->.
    { unfold counts_at at 1. by rewrite fmap_cons, Hn. }
    f_equal. f_equal.
    change (add_int64 0 (Go.wrap64 (n + 1) :: counts_at sw rest))
      with (add_int64 (Go.wrap64 (0 + Go.wrap64 (n + 1))) (counts_at sw rest)).
    change (add_int64 0 (n :: counts_at sw rest))
      with (add_int64 (Go.wrap64 (0 + n)) (counts_at sw rest)).
    rewrite Z.add_0_l, wrap64_idem, (Z.add_0_l n).
    apply add_int64_succ.
Qed.

Lemma Add_counts_one_sample_witness :
  reachable after_adds /\
  exists sw',
    Add after_adds 7%float = Done sw' /\
    exists (x : float) (older : list float) (c : Z),
      samples after_adds !! Z.to_nat (pos after_adds) = Some x /\
      Total after_adds (3 * Go.Second) = Done (add_float (0 + x) older, c) /\
      Total sw' (3 * Go.Second)
        = Done (add_float (0 + (x + 7)) older, Go.wrap64 (c + 1)).
Proof.
  assert (reachable after_adds) as Hre.
  { exists (10 * Go.Second), Go.Second, fresh,
      [OpAdd 4%float; OpAdd 6%float; OpTick; OpAdd 1%float].
    split; [int64_by_evaluation |]. split; [int64_by_evaluation |].
    split; reflexivity. }
  split; [exact Hre |]. eexists. split; [vm_compute; reflexivity |].
  apply (Add_counts_one_sample after_adds _ 7%float (3 * Go.Second) Hre).
  - int64_by_evaluation.
  - vm_compute. discriminate.
  - vm_compute. discriminate.
  - vm_compute. reflexivity.
Defined.

(** The example above in numbers: the counts 1 and 2 of the two buckets
    that hold samples, then one more. *)
Example Add_counts_one_sample_values :
  Total after_adds (3 * Go.Second) = Done (11%float, 3) /\
  (sw <- Add after_adds 7%float ;; Total sw (3 * Go.Second))
    = Done (18%float, 4).
Proof. split; vm_compute; reflexivity. Qed.

(** On an instance that has not been reset, a lookback of one
    granularity reports what was added since the last tick: after a tick
    and the calls [Add(v1)], ..., [Add(vn)], [Total(granularity)] returns
    the values added from the left in [float64], starting from the zero
    the tick wrote, and the sample count [n]. *)
Theorem Total_since_last_tick (sw sw' : SlidingWindow) (vs : list float) :
  reachable sw -> stopOnce sw = false -> size sw <> 0 ->
  run (OpTick :: (OpAdd <$> vs)) sw = Done sw' ->
  Total sw' (granularity sw)
    = Done ((0 + add_float 0 vs)%float, Go.wrap64 (Z.of_nat (length vs))) /\
  (Z.of_nat (length vs) <= Go.maxInt64 ->
   Go.wrap64 (Z.of_nat (length vs)) = Z.of_nat (length vs)).
Proof.
  intros Hi%reachable_inv Hst Hsz Hr. split.
  2: { intros Hle. apply wrap64_id.
       unfold Go.in_int64, Go.minInt64, Go.maxInt64 in *. lia. }
  pose proof Hi as [Hwf Hwi He Hsize _].
  pose proof Hwf as [Hg Hcl Hp Hl Hs Hw].
  assert (exec OpTick sw = tick sw) as Hx by (simpl; by rewrite Hst).
  pose proof (tick_Done sw Hwf) as Ht. rewrite <- Hx in Ht.
  pose proof (exec_inv sw _ OpTick Hi Ht) as Hi1.
  cbn [run] in Hr. rewrite Ht in Hr. simpl in Hr.
  set (sw1 := set_buckets (set_pos sw (next_pos sw))
                (<[Z.to_nat (next_pos sw) := 0%float]> (samples sw))
                (<[Z.to_nat (next_pos sw) := 0]> (counts sw))) in *.
  assert (0 <= next_pos sw < len (samples sw)) as Hn
    by (apply Z.mod_pos_bound; lia).
  destruct (run_adds vs sw1 0%float 0 Hi1)
    as (sw'' & Hr' & Hi' & Hp' & Hs' & Hg' & Hl' & Hv & Hc).
  { subst sw1. simpl. apply list_lookup_insert_eq. unfold len in *. lia. }
  { subst sw1. simpl. apply list_lookup_insert_eq. unfold len in *. lia. }
  assert (sw'' = sw') as -> by congruence.
  change (pos sw1) with (next_pos sw) in *.
  change (size sw1) with (size sw) in *.
  change (granularity sw1) with (granularity sw) in *.
  assert (length (samples sw') = length (samples sw)) as Hlen.
  { rewrite Hl'. subst sw1. simpl. apply length_insert. }
  assert (Go.in_int64 (granularity sw)) as Hgi.
  { unfold Go.in_int64, Go.minInt64, Go.maxInt64 in *. nia. }
  rewrite <- Hg' at 1. rewrite Total_visited by (done || by rewrite Hg').
  assert (buckets_to_sum sw' (granularity sw') = 1%nat) as ->.
  { unfold buckets_to_sum. rewrite Hg', Hs', Z.div_same by lia. lia. }
  assert (visited sw' 1 = [Z.to_nat (next_pos sw)]) as ->.
  { unfold visited. simpl. unfold len. rewrite Hp', Hlen, Z.sub_0_r.
    fold (len (samples sw)). by rewrite Z.mod_small by done. }
  unfold values_at, counts_at. simpl. rewrite Hv, Hc. simpl.
  unfold add_float at 1, add_int64. simpl.
  by rewrite !Z.add_0_l, wrap64_idem.
Qed.

Lemma Total_since_last_tick_witness :
  reachable after_adds /\
  exists sw',
    run (OpTick :: (OpAdd <$> [1.5; 2.5; 4]%float)) after_adds = Done sw' /\
    Total sw' (granularity after_adds)
      = Done ((0 + add_float 0 [1.5; 2.5; 4])%float,
              Go.wrap64 (Z.of_nat (length [1.5; 2.5; 4]%float))) /\
    (Z.of_nat (length [1.5; 2.5; 4]%float) <= Go.maxInt64 ->
     Go.wrap64 (Z.of_nat (length [1.5; 2.5; 4]%float))
       = Z.of_nat (length [1.5; 2.5; 4]%float)).
Proof.
  assert (reachable after_adds) as Hre.
  { exists (10 * Go.Second), Go.Second, fresh,
      [OpAdd 4%float; OpAdd 6%float; OpTick; OpAdd 1%float].
    split; [int64_by_evaluation |]. split; [int64_by_evaluation |].
    split; reflexivity. }
  split; [exact Hre |]. eexists. split; [vm_compute; reflexivity |].
  apply (Total_since_last_tick after_adds _ [1.5; 2.5; 4]%float Hre).
  - reflexivity.
  - vm_compute. discriminate.
  - vm_compute. reflexivity.
Defined.

(** ** Empty windows *)

Lemma every_index_passed (p i n : Z) :
  0 <= p < n -> 0 <= i < n ->
  exists j : Z, 1 <= j <= n /\ (p + j) mod n = i.
Proof.
  intros Hp Hi. destruct (Z_le_gt_dec i p) as [Hle | Hgt].
  - exists (i - p + n). split; [lia |].
    symmetry. apply (Z.mod_unique _ _ 1); lia.
  - exists (i - p). split; [lia |].
    replace (p + (i - p)) with i by lia. apply Z.mod_small. lia.
Qed.

(** While the shifter runs, as many ticks as there are buckets, with no
    call in between, bring the cursor back to where it was and leave every
    bucket with value 0 and count 0. *)
Theorem full_rotation_clears (sw sw' : SlidingWindow) :
  reachable sw -> stopOnce sw = false ->
  run (ticks (length (samples sw))) sw = Done sw' ->
  pos sw' = pos sw /\ size sw' = size sw /\
  samples sw' = replicate (length (samples sw)) 0%float /\
  counts sw' = replicate (length (samples sw)) 0.
Proof.
  intros Hi%reachable_inv Hst Hr.
  destruct (run_ticks (length (samples sw)) sw Hi Hst)
    as (sw'' & Hr' & Hi' & _ & Hl & _ & _ & Hs & Hp & Hz & _).
  assert (sw'' = sw') as -> by congruence.
  pose proof Hi as [[Hg Hcl Hp0 Hl0 Hs0 Hw] _ _ _ _].
  pose proof Hi' as [[_ Hcl' _ _ _ _] _ _ _ _].
  fold (len (samples sw)) in Hp, Hz.
  split; [by rewrite Hp, mod_add_cap |]. split; [done |].
  assert (forall i : nat, (i < length (samples sw))%nat ->
            samples sw' !! i = Some 0%float /\ counts sw' !! i = Some 0) as Hall.
  { intros i Hlt.
    destruct (every_index_passed (pos sw) (Z.of_nat i) (len (samples sw)))
      as (j & Hj & Hij); [done | unfold len; lia |].
    specialize (Hz j Hj). rewrite Hij, Nat2Z.id in Hz. exact Hz. }
  assert (length (samples sw') = length (samples sw)) as Hlen
    by (unfold len in Hl; lia).
  split; apply list_eq; intros i;
    destruct (decide (i < length (samples sw))%nat) as [Hlt | Hge].
  - rewrite lookup_replicate_2 by done. by apply Hall.
  - rewrite !lookup_ge_None_2; rewrite ?length_replicate; (done || lia).
  - rewrite lookup_replicate_2 by done. by apply Hall.
  - rewrite !lookup_ge_None_2; rewrite ?length_replicate; (done || lia).
Qed.

Lemma full_rotation_clears_witness :
  reachable after_adds /\
  exists sw',
    run (ticks (length (samples after_adds))) after_adds = Done sw' /\
    pos sw' = pos after_adds /\ size sw' = size after_adds /\
    samples sw' = replicate (length (samples after_adds)) 0%float /\
    counts sw' = replicate (length (samples after_adds)) 0.
Proof.
  assert (reachable after_adds) as Hre.
  { exists (10 * Go.Second), Go.Second, fresh,
      [OpAdd 4%float; OpAdd 6%float; OpTick; OpAdd 1%float].
    split; [int64_by_evaluation |]. split; [int64_by_evaluation |].
    split; reflexivity. }
  split; [exact Hre |]. eexists. split; [vm_compute; reflexivity |].
  apply (full_rotation_clears after_adds _ Hre).
  - reflexivity.
  - vm_compute. reflexivity.
Defined.

Lemma values_at_replicate (n : nat) (js : list nat) :
  Forall (fun x => x = 0%float)
    ((fun j => default 0%float (replicate n 0%float !! j)) <$> js) /\
  Forall (fun k => k = 0) ((fun j => default 0 (replicate n 0 !! j)) <$> js).
Proof.
  induction js as [| j js [IHv IHc]]; [split; constructor |].
  rewrite !fmap_cons. split; constructor; try done.
  - destruct (replicate n 0%float !! j) as [x |] eqn:Hx; [| done].
    by apply lookup_replicate in Hx as [-> _].
  - destruct (replicate n 0 !! j) as [x |] eqn:Hx; [| done].
    by apply lookup_replicate in Hx as [-> _].
Qed.

(** An instance just built holds no sample: [Total] returns (0, 0) and
    [Average] returns 0 for every lookback. *)
Theorem New_instance_is_empty (w g d : Z) (sw : SlidingWindow) :
  Go.in_int64 w -> Go.in_int64 g -> Go.in_int64 d ->
  New w g = Done (Ok sw) ->
  Total sw d = Done (0%float, 0) /\ Average sw d = Done 0%float.
Proof.
  intros Hw Hg Hd Hn.
  pose proof (New_inv_holds w g sw Hw Hg Hn) as Hi.
  assert (Total sw d = Done (0%float, 0)) as Ht.
  { rewrite Total_visited by done.
    destruct (New_inv w g sw Hw Hg Hn) as (_ & _ & _ & _ & Hsw).
    destruct (values_at_replicate (Z.to_nat (w / g))
                (visited sw (buckets_to_sum sw d))) as [Hv Hc].
    assert (samples sw = replicate (Z.to_nat (w / g)) 0%float) as Hss
      by (by rewrite Hsw).
    assert (counts sw = replicate (Z.to_nat (w / g)) 0) as Hcs
      by (by rewrite Hsw).
    unfold values_at, counts_at. rewrite Hss, Hcs.
    by rewrite add_float_zeros, add_int64_zeros. }
  split; [done | by apply Average_no_bucket].
Qed.

Lemma New_instance_is_empty_witness :
  Total fresh (5 * Go.Second) = Done (0%float, 0) /\
  Average fresh (5 * Go.Second) = Done 0%float.
Proof.
  apply (New_instance_is_empty (10 * Go.Second) Go.Second (5 * Go.Second) fresh).
  - int64_by_evaluation.
  - int64_by_evaluation.
  - int64_by_evaluation.
  - reflexivity.
Defined.
